(** * clone-notion.js: the crawl-and-rewrite engine

    A shallow embedding of [clone-notion.js] (the Notion to static site
    cloner) and the properties of its crawl loop, link rewriter, slug
    allocator, asset fetcher and post-crawl link fix pass.

    Conventions.
    - JavaScript strings are Rocq strings; one character stands for one code
      unit, non-ASCII text being its UTF-8 bytes.  [trim] removes the white space
      and the line terminators of ECMAScript, each as its UTF-8 bytes.
    - The services the script gets from its runtime and its npm packages
      (the WHATWG [URL] class, [slugify], the [RegExp] engine) are the
      fields of the class [Platform]; every general theorem holds for all
      platforms.  [reference_platform] implements them on plain ASCII
      [http(s)] URLs and ASCII titles and is what the concrete runs use.
    - The browser, the network and the disk are a [world]: an oracle indexed
      by the iteration of the crawl loop.
    - [try { ... } catch] blocks are [option] computations: [None] is a
      throw, and the handler is the [None] branch of the caller. *)

From Stdlib Require Import Strings.String Strings.Ascii Lists.List Bool.Bool.
From Stdlib Require Import Arith.Arith Arith.PeanoNat micromega.Lia.
From Stdlib Require Import NArith.NArith Numbers.DecimalString Numbers.DecimalNat.
Import ListNotations.

Open Scope list_scope.
Open Scope string_scope.

(* ================================================================== *)
(** ** Characters and strings *)

Definition code (c : ascii) : nat := nat_of_ascii c.

Definition between (lo hi : nat) (c : ascii) : bool :=
  Nat.leb lo (code c) && Nat.leb (code c) hi.

Definition is_digit (c : ascii) : bool := between 48 57 c.
Definition is_upper (c : ascii) : bool := between 65 90 c.
Definition is_lower (c : ascii) : bool := between 97 122 c.
Definition is_alnum (c : ascii) : bool := is_digit c || is_upper c || is_lower c.

(** The class [[0-9a-f]] under the [i] flag. *)
Definition is_hex (c : ascii) : bool :=
  is_digit c || between 65 70 c || between 97 102 c.

(** The ASCII characters of [\s]. *)
Definition is_space (c : ascii) : bool :=
  between 9 13 c || Nat.eqb (code c) 32.

Definition to_lower (c : ascii) : ascii :=
  if is_upper c then ascii_of_nat (code c + 32) else c.

Definition dquote : string := String "034"%char "".
Definition backslash : ascii := "092"%char.

Fixpoint string_filter (p : ascii -> bool) (s : string) : string :=
  match s with
  | "" => ""
  | String c s' => if p c then String c (string_filter p s') else string_filter p s'
  end.

Fixpoint string_map (f : ascii -> ascii) (s : string) : string :=
  match s with
  | "" => ""
  | String c s' => String (f c) (string_map f s')
  end.

Fixpoint string_forallb (p : ascii -> bool) (s : string) : bool :=
  match s with
  | "" => true
  | String c s' => p c && string_forallb p s'
  end.

Fixpoint string_rev_onto (s acc : string) : string :=
  match s with
  | "" => acc
  | String c s' => string_rev_onto s' (String c acc)
  end.

Definition string_rev (s : string) : string := string_rev_onto s "".

(** [s.slice(0, n)]. *)
Fixpoint slice0 (n : nat) (s : string) : string :=
  match n, s with
  | S n', String c s' => String c (slice0 n' s')
  | _, _ => ""
  end.

Fixpoint drop (n : nat) (s : string) : string :=
  match n, s with
  | S n', String _ s' => drop n' s'
  | _, _ => s
  end.

Fixpoint starts_with (p s : string) : bool :=
  match p, s with
  | "", _ => true
  | String a p', String b s' => Ascii.eqb a b && starts_with p' s'
  | _, _ => false
  end.

Definition ends_with (p s : string) : bool :=
  starts_with (string_rev p) (string_rev s).

(** [s.includes(p)]. *)
Fixpoint contains (p s : string) : bool :=
  starts_with p s ||
  match s with
  | "" => false
  | String _ s' => contains p s'
  end.

Definition bytes2 (a b : ascii) : string := String a (String b "").
Definition bytes3 (a b c : ascii) : string := String a (String b (String c "")).

(** The characters [String.prototype.trim] removes, white space and line
    terminators, each as its UTF-8 bytes. *)
Definition js_white_space : list string :=
  [ String "009" ""; String "010" ""; String "011" ""; String "012" "";
    String "013" ""; String "032" "";
    bytes2 "194" "160";                                     (* U+00A0 *)
    bytes3 "225" "154" "128";                               (* U+1680 *)
    bytes3 "226" "128" "128"; bytes3 "226" "128" "129";     (* U+2000 ... *)
    bytes3 "226" "128" "130"; bytes3 "226" "128" "131";
    bytes3 "226" "128" "132"; bytes3 "226" "128" "133";
    bytes3 "226" "128" "134"; bytes3 "226" "128" "135";
    bytes3 "226" "128" "136"; bytes3 "226" "128" "137";
    bytes3 "226" "128" "138";                               (* ... U+200A *)
    bytes3 "226" "128" "168"; bytes3 "226" "128" "169";     (* U+2028, U+2029 *)
    bytes3 "226" "128" "175";                               (* U+202F *)
    bytes3 "226" "129" "159";                               (* U+205F *)
    bytes3 "227" "128" "128";                               (* U+3000 *)
    bytes3 "239" "187" "191" ].                             (* U+FEFF *)

(** The rest of [s] after the member of [table] it starts with, if any. *)
Fixpoint strip_one (table : list string) (s : string) : option string :=
  match table with
  | [] => None
  | w :: table' =>
      if starts_with w s then Some (drop (String.length w) s)
      else strip_one table' s
  end.

(** Members of [table] are taken off the start of [s] as long as there is
    one; every step shortens the string, which bounds the steps by its
    length. *)
Fixpoint strip_all (table : list string) (fuel : nat) (s : string) : string :=
  match fuel with
  | 0 => s
  | S fuel' =>
      match strip_one table s with
      | Some rest => strip_all table fuel' rest
      | None => s
      end
  end.

Definition trimStart (s : string) : string :=
  strip_all js_white_space (String.length s) s.

(** The same from the end: on the reversed string, with the reversed
    byte sequences. *)
Definition trimEnd (s : string) : string :=
  string_rev (strip_all (map string_rev js_white_space) (String.length s)
                        (string_rev s)).

Definition trim (s : string) : string := trimEnd (trimStart s).

(** The JavaScript [a || b] on strings: the empty string is falsy. *)
Definition or_else (a b : string) : string :=
  match a with "" => b | _ => a end.

(** [s.split(c)[0]]: the part of [s] before the first [c]. *)
Fixpoint before (c : ascii) (s : string) : string :=
  match s with
  | "" => ""
  | String a s' => if Ascii.eqb a c then "" else String a (before c s')
  end.

(** The part of [s] after the first [c], when [c] occurs. *)
Fixpoint after (c : ascii) (s : string) : option string :=
  match s with
  | "" => None
  | String a s' => if Ascii.eqb a c then Some s' else after c s'
  end.

(** Template-literal interpolation of a number. *)
Definition nat_to_string (n : nat) : string :=
  NilEmpty.string_of_uint (Nat.to_uint n).

(* ================================================================== *)
(** ** The WHATWG URL record and the platform *)

(** The components of a parsed URL that the script reads or writes. *)
Record URL := mkURL {
  url_scheme : string;            (* without the colon *)
  url_userinfo : string;          (* empty, or credentials with their at sign *)
  url_authority : option string;  (* host and port; None: no authority *)
  url_path : string;
  url_query : option string;      (* without the question mark; None: null *)
  url_fragment : option string    (* without the hash sign; None: null *)
}.

(** The getter [x.host]. *)
Definition URL_host (x : URL) : string :=
  match url_authority x with Some h => h | None => "" end.

(** The getter [x.pathname]. *)
Definition URL_pathname (x : URL) : string := url_path x.

(** The setter [x.hash = ''] : the fragment becomes null. *)
Definition URL_clear_hash (x : URL) : URL :=
  mkURL (url_scheme x) (url_userinfo x) (url_authority x) (url_path x)
        (url_query x) None.

Definition opt_part (mark : string) (o : option string) : string :=
  match o with Some s => mark ++ s | None => "" end.

(** [x.toString()], the URL serializer. *)
Definition URL_toString (x : URL) : string :=
  url_scheme x ++ ":" ++
  match url_authority x with
  | Some h => "//" ++ url_userinfo x ++ h
  | None => ""
  end ++
  url_path x ++ opt_part "?" (url_query x) ++ opt_part "#" (url_fragment x).

Class Platform := {
  (** [new URL(u)]; [None] when the constructor throws. *)
  URL_new : string -> option URL;
  (** [new URL(u, base)]; [None] when the constructor throws. *)
  URL_new_base : string -> URL -> option URL;
  (** [slugify(s, { lower: true, strict: true })]. *)
  slugify : string -> string;
  (** [subject.replace(new RegExp(source, 'g'), replacement)], given as
      source, replacement, subject; [None] when the constructor throws. *)
  RegExp_replace_all : string -> string -> string -> option string
}.

(* ================================================================== *)
(** ** Helpers of the script *)

(** [/[0-9a-f]{32}/i.test(s)], as a scan: [k] is what the current run of
    hexadecimal digits still lacks. *)
Fixpoint hex_scan (n k : nat) (s : string) : bool :=
  match k with
  | 0 => true
  | S k' =>
      match s with
      | "" => false
      | String c s' => if is_hex c then hex_scan n k' s' else hex_scan n n s'
      end
  end.

Definition has_page_id (s : string) : bool := hex_scan 32 32 s.

(** [s.replace(/-/g, '')]. *)
Definition remove_hyphens (s : string) : string :=
  string_filter (fun c => negb (Ascii.eqb c "-")) s.

(** A line terminator among the single code units: what [.] refuses. *)
Definition is_line_terminator (c : ascii) : bool :=
  Nat.eqb (code c) 10 || Nat.eqb (code c) 13.

(** [f.replace(/\\.html$/, '')] as the source spells it: a backslash, any
    character but a line terminator, then [html] at the end of [f]. *)
Definition strip_html_suffix (f : string) : string :=
  let n := String.length f in
  match drop (n - 6) f with
  | String b (String c rest) =>
      if Nat.leb 6 n && Ascii.eqb b backslash && negb (is_line_terminator c)
         && String.eqb rest "html"
      then slice0 (n - 6) f else f
  | _ => f
  end.

(** [visited]: a JavaScript [Map] from URL to [{title, filename}], in
    insertion order. *)
Record PageMeta := mkMeta { title : string; filename : string }.

Definition Visited := list (string * PageMeta).

Fixpoint Map_get (m : Visited) (k : string) : option PageMeta :=
  match m with
  | [] => None
  | (k', v) :: m' => if String.eqb k' k then Some v else Map_get m' k
  end.

Definition Map_has (m : Visited) (k : string) : bool :=
  match Map_get m k with Some _ => true | None => false end.

Fixpoint Map_set (m : Visited) (k : string) (v : PageMeta) : Visited :=
  match m with
  | [] => [(k, v)]
  | (k', v') :: m' =>
      if String.eqb k' k then (k, v) :: m' else (k', v') :: Map_set m' k v
  end.

Definition Map_size (m : Visited) : nat := List.length m.

Definition Map_values (m : Visited) : list PageMeta := map snd m.

(** [Array.prototype.includes] and [Set.prototype.has] on strings. *)
Definition includes (l : list string) (x : string) : bool :=
  existsb (String.eqb x) l.

(** The names [uniqueSlug] takes as used. *)
Definition used_slugs (m : Visited) : list string :=
  map (fun v => strip_html_suffix (filename v)) (Map_values m).

(** [while (used.has(slug)) { slug = `${base}-${i++}`; }]: among
    [length used + 1] distinct candidates one is free, which bounds the
    iterations (see [uniqueSlug_loop_free]). *)
Fixpoint uniqueSlug_loop (fuel : nat) (used : list string) (base slug : string)
    (i : nat) : string :=
  match fuel with
  | 0 => slug
  | S fuel' =>
      if includes used slug
      then uniqueSlug_loop fuel' used base (base ++ "-" ++ nat_to_string i) (S i)
      else slug
  end.

(** [Buffer.from(u).toString('base64')]. *)
Definition base64_alphabet : string :=
  "ABCDEFGHIJKLMNOPQRSTUVWXYZabcdefghijklmnopqrstuvwxyz0123456789+/".

Definition base64_digit (n : N) : ascii :=
  match String.get (N.to_nat n) base64_alphabet with
  | Some c => c
  | None => "="%char
  end.

Definition sextet (n : N) (k : N) : string :=
  String (base64_digit (N.modulo (N.shiftr n (6 * k)) 64)) "".

Fixpoint base64 (s : string) : string :=
  match s with
  | "" => ""
  | String a "" =>
      let n := N.shiftl (N_of_ascii a) 16 in
      sextet n 3 ++ sextet n 2 ++ "=="
  | String a (String b "") =>
      let n := (N.shiftl (N_of_ascii a) 16 + N.shiftl (N_of_ascii b) 8)%N in
      sextet n 3 ++ sextet n 2 ++ sextet n 1 ++ "="
  | String a (String b (String c s')) =>
      let n := (N.shiftl (N_of_ascii a) 16 + N.shiftl (N_of_ascii b) 8
                + N_of_ascii c)%N in
      sextet n 3 ++ sextet n 2 ++ sextet n 1 ++ sextet n 0 ++ base64 s'
  end.

(** [m.match(/\\.(png|jpe?g|gif|svg|webp)$/i)?.[0]] as the source spells
    it: a backslash, any character but a line terminator, one of the names,
    the end of the string; the match is that whole suffix. *)
Definition suffix_match (k : nat) (names : list string) (s : string) : option string :=
  let n := String.length s in
  let t := drop (n - k) s in
  match t with
  | String b (String c rest) =>
      if Nat.leb k n && Ascii.eqb b backslash && negb (is_line_terminator c)
         && includes names (string_map to_lower rest)
      then Some t else None
  | _ => None
  end.

Definition image_ext_match (s : string) : option string :=
  match suffix_match 6 ["jpeg"; "webp"] s with
  | Some t => Some t
  | None => suffix_match 5 ["png"; "jpg"; "gif"; "svg"] s
  end.

Definition assetFilename (u : string) : string :=
  let id := slice0 24 (string_filter is_alnum (base64 u)) in
  let ext :=
    match image_ext_match (before "#" (before "?" u)) with
    | Some e => or_else e ".bin"
    | None => ".bin"
    end in
  id ++ ext.

(** The class [[.*+?^${}()|[\\]] of [escapeRegExp]'s pattern. *)
Definition regexp_class (c : ascii) : bool :=
  includes ["."; "*"; "+"; "?"; "^"; "$"; "{"; "}"; "("; ")"; "|"; "["]
           (String c "")
  || Ascii.eqb c backslash.

(** What follows the class in that pattern: two backslashes and a closing
    bracket. *)
Definition regexp_tail : string :=
  String backslash (String backslash "]").

(** [s.replace(/[.*+?^${}()|[\\]\\\\]/g, '\\\\$&')] as the source spells it:
    every class character followed by [regexp_tail] gets two backslashes in
    front; [skip] counts the characters of a match still to pass. *)
Fixpoint escapeRegExp_from (skip : nat) (s : string) : string :=
  match s with
  | "" => ""
  | String c s' =>
      match skip with
      | S k => escapeRegExp_from k s'
      | 0 =>
          if regexp_class c && starts_with regexp_tail s'
          then String backslash (String backslash (String c regexp_tail))
               ++ escapeRegExp_from 3 s'
          else String c (escapeRegExp_from 0 s')
      end
  end.

Definition escapeRegExp (s : string) : string := escapeRegExp_from 0 s.

(** The suffix [/ – Notion$/] removes: a space, an en dash, [ Notion]. *)
Definition notion_suffix : string :=
  String " " (String "226" (String "128" (String "147" " Notion"))).

Definition strip_suffix (suf s : string) : string :=
  if ends_with suf s then slice0 (String.length s - String.length suf) s else s.

(** The title of the page: the text of its [title] element, when it has
    one. *)
Definition pageTitle (t : option string) : string :=
  let title := or_else (trim (match t with Some x => x | None => "" end)) "page" in
  or_else (trim (strip_suffix notion_suffix title)) "page".

Section Helpers.
Context `{Platform}.

Definition normalizeUrl (u : string) : string :=
  match URL_new u with
  | Some x => URL_toString (URL_clear_hash x)   (* drop client-side anchors *)
  | None => u
  end.

Definition isNotionPage (u : string) : bool :=
  match URL_new u with
  | Some x => has_page_id (remove_hyphens (URL_pathname x))
  | None => false
  end.

Definition uniqueSlug (title : string) (map : Visited) : string :=
  let base := slice0 60 (or_else (slugify title) "page") in
  let used := used_slugs map in
  uniqueSlug_loop (S (List.length used)) used base base 2.

(** The provisional file name of a link, from its text. *)
Definition guessFilename (text : string) : string :=
  let guess :=
    or_else (slice0 60 (slugify (or_else (trim (or_else text "page")) "page")))
            "page" in
  or_else guess "page" ++ ".html".

End Helpers.

(* ================================================================== *)
(** ** Rendered pages *)

Definition attributes := list (string * string).

Fixpoint getAttribute (a : attributes) (k : string) : option string :=
  match a with
  | [] => None
  | (k', v) :: a' => if String.eqb k' k then Some v else getAttribute a' k
  end.

Fixpoint setAttribute (a : attributes) (k v : string) : attributes :=
  match a with
  | [] => [(k, v)]
  | (k', v') :: a' =>
      if String.eqb k' k then (k, v) :: a' else (k', v') :: setAttribute a' k v
  end.

(** What the script looks at in the parsed tree: the [a] elements with
    their text, the [img] elements, and the markup in between, which it
    copies. *)
Inductive node :=
| Markup (html : string)
| Anchor (attrs : attributes) (text : string)
| Image (attrs : attributes).

Record document := mkDoc {
  doc_title : option string;   (* text of the title element, if any *)
  doc_framed : bool;           (* the tree has a head and a body *)
  doc_head : list string;      (* children appended to the head *)
  doc_nodes : list node;
  doc_foot : list string       (* children appended to the body *)
}.

Definition set_nodes (d : document) (nodes : list node) : document :=
  mkDoc (doc_title d) (doc_framed d) (doc_head d) nodes (doc_foot d).

Definition minimal_style : string :=
"<style>
  body{max-width:900px;margin:40px auto;padding:0 20px;line-height:1.6;font-family:Inter,system-ui,-apple-system,Segoe UI,Roboto,Helvetica,Arial,sans-serif;}
  img{max-width:100%;height:auto;}
  a{text-decoration:none;}
  .container{display:block;}
  .toc{position:sticky;top:20px;max-height:80vh;overflow:auto;padding-left:0;}
  details{border:1px solid #e6e6e6;border-radius:8px;padding:10px 14px;margin:10px 0;}
  summary{cursor:pointer;font-weight:600;}
  code,pre{font-family:ui-monospace,SFMono-Regular,Menlo,Monaco,Consolas,monospace;}
</style>".

Definition toggle_script : string :=
"<script>
(function(){
  // Make generic disclosure widgets work if markup uses aria-controls / aria-expanded
  document.addEventListener('click', function(e){
    const t = e.target.closest('[aria-controls], summary');
    if(!t) return;
    if(t.matches('summary')) return; // native <details>
    const id = t.getAttribute('aria-controls');
    if(!id) return;
    const el = document.getElementById(id);
    if(!el) return;
    const visible = getComputedStyle(el).display !== 'none';
    el.style.display = visible ? 'none' : 'block';
    const exp = t.getAttribute('aria-expanded');
    if(exp !== null) t.setAttribute('aria-expanded', (!visible).toString());
    e.preventDefault();
  }, true);
})();
</script>".

Definition injectMinimalBundle (root : document) : document :=
  if doc_framed root
  then mkDoc (doc_title root) true (doc_head root ++ [minimal_style])
             (doc_nodes root) (doc_foot root ++ [toggle_script])
  else root.

(** [root.toString()]. *)
Definition attributes_toString (a : attributes) : string :=
  String.concat ""
    (map (fun kv => " " ++ fst kv ++ "=" ++ dquote ++ snd kv ++ dquote) a).

Definition node_toString (n : node) : string :=
  match n with
  | Markup html => html
  | Anchor attrs text => "<a" ++ attributes_toString attrs ++ ">" ++ text ++ "</a>"
  | Image attrs => "<img" ++ attributes_toString attrs ++ ">"
  end.

Definition title_toString (t : option string) : string :=
  match t with Some x => "<title>" ++ x ++ "</title>" | None => "" end.

Definition document_toString (d : document) : string :=
  let inner := String.concat "" (map node_toString (doc_nodes d)) in
  if doc_framed d
  then "<html><head>" ++ title_toString (doc_title d)
       ++ String.concat "" (doc_head d) ++ "</head><body>" ++ inner
       ++ String.concat "" (doc_foot d) ++ "</body></html>"
  else title_toString (doc_title d) ++ inner.

(** The distinct, non-empty [src] attributes, in document order: the
    [Set] the script builds. *)
Definition image_src (n : node) : option string :=
  match n with
  | Image attrs =>
      match getAttribute attrs "src" with
      | Some "" => None
      | o => o
      end
  | _ => None
  end.

Fixpoint distinct_from (seen l : list string) : list string :=
  match l with
  | [] => []
  | x :: l' =>
      if includes seen x then distinct_from seen l'
      else x :: distinct_from (x :: seen) l'
  end.

Fixpoint sources (nodes : list node) : list string :=
  match nodes with
  | [] => []
  | n :: rest =>
      match image_src n with
      | Some src => src :: sources rest
      | None => sources rest
      end
  end.

Definition imageSources (nodes : list node) : list string :=
  distinct_from [] (sources nodes).

(** Every [img] whose [src] is exactly [src] gets the local path. *)
Definition rewriteSrc (src assetName : string) (nodes : list node) : list node :=
  map (fun n =>
         match n with
         | Image attrs =>
             match getAttribute attrs "src" with
             | Some v =>
                 if String.eqb v src
                 then Image (setAttribute attrs "src" ("assets/" ++ assetName))
                 else n
             | None => n
             end
         | _ => n
         end) nodes.

(* ================================================================== *)
(** ** Files, effects and the world *)

Definition files := list (string * string).

Fixpoint file_read (fs : files) (name : string) : option string :=
  match fs with
  | [] => None
  | (n, c) :: fs' => if String.eqb n name then Some c else file_read fs' name
  end.

Definition file_exists (fs : files) (name : string) : bool :=
  match file_read fs name with Some _ => true | None => false end.

Fixpoint file_write (fs : files) (name content : string) : files :=
  match fs with
  | [] => [(name, content)]
  | (n, c) :: fs' =>
      if String.eqb n name then (n, content) :: fs'
      else (n, c) :: file_write fs' name content
  end.

(** What a run does that can be seen from outside, in order. *)
Inductive effect :=
| Visiting (url : string)        (* logged right before [page.goto] *)
| SkippedStatus                  (* the warning of the status branch *)
| HttpGet (url : string)         (* a call of [axios.get] *)
| AssetSaved (name : string)     (* logged after an asset is written *)
| ImageFailed (src : string)     (* the warning of an image's catch *)
| PageSaved (filename : string)  (* logged after a page is written *)
| PageError.                     (* the warning of a page's catch *)

Inductive navigation :=
| Threw                                   (* goto, evaluate or content rejects *)
| NoResponse                              (* goto resolves to null *)
| Response (status : nat) (doc : document).

(** [resp.ok()]: a status in the range 200-299. *)
Definition status_ok (status : nat) : bool :=
  Nat.leb 200 status && Nat.leb status 299.

(** The browser, the network and the disk at each iteration of the loop. *)
Record world := mkWorld {
  goto : nat -> string -> navigation;
  axios_get : nat -> string -> option string;  (* None: the request fails *)
  page_writable : nat -> bool                  (* saving the page succeeds *)
}.

(** The body of one image task up to its rewrite, run without
    interruption: [seen] is the asset directory as [existsSync] finds it,
    [assets] the directory the write goes to.  The flag says whether the
    task goes on to rewrite the tags. *)
Definition fetchAsset (get : string -> option string) (seen assets : files)
    (abs : string) : files * list effect * bool :=
  let assetName := assetFilename abs in
  if file_exists seen assetName then (assets, [], true)
  else
    match get abs with
    | Some data =>
        (file_write assets assetName data, [HttpGet abs; AssetSaved assetName], true)
    | None => (assets, [HttpGet abs], false)
    end.

(** The asset fetcher run on its own: the check and the write see the same
    directory. *)
Definition fetchAssetAlone (get : string -> option string) (assets : files)
    (abs : string) : files * list effect * bool :=
  fetchAsset get assets assets abs.

(* ================================================================== *)
(** ** The link rewriter *)

Section Rewriter.
Context `{Platform}.
Variable host : string.        (* [new URL(START_URL).host] *)
Variable urlObj : URL.         (* [new URL(url)], the page's own URL *)
Variable visited : Visited.

(** [new URL(abs).host === host && isNotionPage(abs)]; [None] when the
    constructor throws. *)
Definition inScope (abs : string) : option bool :=
  match URL_new abs with
  | Some y => Some (String.eqb (URL_host y) host && isNotionPage abs)
  | None => None
  end.

(** The local file an in-scope link is pointed at: the target's file name
    when the target is visited, a guess from the link text otherwise. *)
Definition mappedFilename (nh text : string) : string :=
  match Map_get visited nh with
  | Some m =>
      match filename m with
      | "" => guessFilename text
      | f => f
      end
  | None => guessFilename text
  end.

(** The [try] block of the callback, for an anchor with a non-empty
    [href]; [None] when it throws. *)
Definition anchorTry (queue : list string) (attrs : attributes)
    (text href : string) : option (attributes * list string) :=
  match URL_new_base href urlObj with
  | None => None
  | Some x =>
      let abs := URL_toString x in
      let nh := normalizeUrl abs in
      match inScope abs with
      | None => None
      | Some true =>
          (* map to local file *)
          Some (setAttribute attrs "href" (mappedFilename nh text),
                if negb (Map_has visited nh) && negb (includes queue nh)
                then (queue ++ [nh])%list else queue)
      | Some false =>
          (* keep external links as-is *)
          Some (setAttribute (setAttribute attrs "target" "_blank")
                             "rel" "noopener noreferrer",
                queue)
      end
  end.

(** The callback of [root.querySelectorAll('a').forEach]. *)
Definition rewriteAnchor (queue : list string) (attrs : attributes)
    (text : string) : attributes * list string :=
  match getAttribute attrs "href" with
  | None | Some "" => (attrs, queue)
  | Some href =>
      match anchorTry queue attrs text href with
      | Some r => r
      | None => (attrs, queue)          (* catch {} *)
      end
  end.

Fixpoint rewriteLinks (nodes : list node) (queue : list string)
    : list node * list string :=
  match nodes with
  | [] => ([], queue)
  | Anchor attrs text :: rest =>
      let '(attrs', queue') := rewriteAnchor queue attrs text in
      let '(rest', queue'') := rewriteLinks rest queue' in
      (Anchor attrs' text :: rest', queue'')
  | n :: rest =>
      let '(rest', queue') := rewriteLinks rest queue in
      (n :: rest', queue')
  end.

(** The [Promise.all] over the image sources.  [map] calls the tasks one
    after the other and each runs up to its first [await]: a task whose
    [src] does not resolve fails there and then, a task that finds its file
    rewrites its tags at once, and any other calls [axios.get] and waits.
    So every task checks the directory [seen] of the start of the block, and
    every request is made before any download is written. *)
Definition imageStart (seen : files)
    (st : list node * list effect * list (string * string)) (src : string)
    : list node * list effect * list (string * string) :=
  let '(nodes, log, waiting) := st in
  match URL_new_base src urlObj with
  | None => (nodes, (log ++ [ImageFailed src])%list, waiting)
  | Some x =>
      let abs := URL_toString x in
      if file_exists seen (assetFilename abs)
      then (rewriteSrc src (assetFilename abs) nodes, log, waiting)
      else (nodes, (log ++ [HttpGet abs])%list, (waiting ++ [(src, abs)])%list)
  end.

(** A waiting task when its request completes: the file is written, logged,
    and the tags are rewritten, or the task fails.  The completions are
    taken in the order of the requests. *)
Definition imageFinish (get : string -> option string)
    (st : files * list node * list effect) (task : string * string)
    : files * list node * list effect :=
  let '(assets, nodes, log) := st in
  let '(src, abs) := task in
  match get abs with
  | Some data =>
      (file_write assets (assetFilename abs) data,
       rewriteSrc src (assetFilename abs) nodes,
       (log ++ [AssetSaved (assetFilename abs)])%list)
  | None => (assets, nodes, (log ++ [ImageFailed src])%list)
  end.

Definition downloadImages (get : string -> option string) (assets : files)
    (images : list string) (nodes : list node)
    : files * list node * list effect :=
  let '(nodes1, log1, waiting) :=
    fold_left (imageStart assets) images (nodes, [], []) in
  fold_left (imageFinish get) waiting (assets, nodes1, log1).

End Rewriter.

(* ================================================================== *)
(** ** The crawl loop *)

Definition MAX_PAGES : nat := 150. (* safety cap *)

Record state := mkState {
  visited : Visited;          (* url -> {title, filename} *)
  queue : list string;
  site : files;               (* the pages under site/ *)
  assets : files;             (* the files under site/assets/ *)
  trace : list effect;
  tick : nat                  (* iterations so far *)
}.

Section Crawl.
Context `{Platform}.
Variable w : world.
Variable host : string.

(** [queue.length && visited.size < MAX_PAGES]. *)
Definition loop_condition (s : state) : bool :=
  match queue s with
  | [] => false
  | _ :: _ => Nat.ltb (Map_size (visited s)) MAX_PAGES
  end.

Definition say (s : state) (es : list effect) : state :=
  mkState (visited s) (queue s) (site s) (assets s) (trace s ++ es) (tick s).

(** The [try] block once the page is rendered; [s] is the state after
    [queue.shift()]. *)
Definition processPage (s : state) (url : string) (root : document) : state :=
  let title := pageTitle (doc_title root) in
  let slug := uniqueSlug title (visited s) in
  let filename := slug ++ ".html" in
  let images := imageSources (doc_nodes root) in
  match URL_new url with
  | None => say s [PageError]
  | Some urlObj =>
      let '(nodes1, queue1) :=
        rewriteLinks host urlObj (visited s) (doc_nodes root) (queue s) in
      let root1 := injectMinimalBundle (set_nodes root nodes1) in
      let '(assets1, nodes2, log) :=
        downloadImages urlObj (axios_get w (tick s)) (assets s) images
                       (doc_nodes root1) in
      let html := document_toString (set_nodes root1 nodes2) in
      if page_writable w (tick s)
      then mkState (Map_set (visited s) url (mkMeta title filename)) queue1
                   (file_write (site s) filename html) assets1
                   (trace s ++ log ++ [PageSaved filename]) (tick s)
      else mkState (visited s) queue1 (site s) assets1
                   (trace s ++ log ++ [PageError]) (tick s)
  end.

(** One iteration of the [while] body, for a state in which the loop
    condition holds; other states are left as they are. *)
Definition step (s : state) : state :=
  if loop_condition s then
    match queue s with
    | [] => s
    | url :: rest =>
        let s0 := mkState (visited s) rest (site s) (assets s) (trace s) (tick s) in
        let s' :=
          if Map_has (visited s) url then s0
          else
            let s1 := say s0 [Visiting url] in
            match goto w (tick s) url with
            | Threw => say s1 [PageError]
            | NoResponse => say s1 [SkippedStatus]
            | Response status root =>
                if status_ok status then processPage s1 url root
                else say s1 [SkippedStatus]
            end in
        mkState (visited s') (queue s') (site s') (assets s') (trace s')
                (S (tick s))
    end
  else s.

Fixpoint run (n : nat) (s : state) : state :=
  match n with
  | 0 => s
  | S n' => run n' (step s)
  end.

(** The [while] loop; [None] when [fuel] iterations do not end it. *)
Fixpoint crawl (fuel : nat) (s : state) : option state :=
  if loop_condition s then
    match fuel with
    | 0 => None
    | S fuel' => crawl fuel' (step s)
    end
  else Some s.

(** The pass over the saved pages after the crawl. *)
Definition fixPage (vis : Visited) (html : string) : string :=
  fold_left
    (fun html um =>
       match RegExp_replace_all (escapeRegExp (fst um)) (filename (snd um)) html with
       | Some html' => html'
       | None => html               (* catch {} *)
       end)
    vis html.

(** [None] when [readFileSync] throws: nothing catches it. *)
Fixpoint fixLinks (vis : Visited) (pages : Visited) (fs : files) : option files :=
  match pages with
  | [] => Some fs
  | (_, meta) :: pages' =>
      match file_read fs (filename meta) with
      | None => None
      | Some html =>
          fixLinks vis pages' (file_write fs (filename meta) (fixPage vis html))
      end
  end.

End Crawl.

(** The state the loop starts in, for a seed [u]. *)
Definition seeded (u : string) : state := mkState [] [u] [] [] [] 0.

Section Main.
Context `{Platform}.

(** The state the loop starts from, with the crawl's host; [None] when the
    script exits at start-up (no argument, or an invalid URL). *)
Definition start (START_URL : string) : option (string * state) :=
  match START_URL with
  | "" => None
  | _ =>
      match URL_new START_URL with
      | Some x =>
          Some (URL_host x, seeded (normalizeUrl START_URL))
      | None => None
      end
  end.

(** The whole script: the files under [site/] at the end, with the state
    the crawl ended in.  [None]: start-up exit, fuel too small, or an
    uncaught throw of the fix pass. *)
Definition main (w : world) (START_URL : string) (fuel : nat)
    : option (state * files) :=
  match start START_URL with
  | None => None
  | Some (host, s0) =>
      match crawl w host fuel s0 with
      | None => None
      | Some s =>
          match fixLinks (visited s) (visited s) (site s) with
          | Some fs => Some (s, fs)
          | None => None
          end
      end
  end.

End Main.

(* ================================================================== *)
(** ** What a step renders and discovers *)

Section Discovery.
Context `{Platform}.
Variable w : world.
Variable host : string.

(** The URL an anchor makes the rewriter enqueue, if it is new: the
    normalized target of an in-scope link. *)
Definition anchorTarget (urlObj : URL) (attrs : attributes) : option string :=
  match getAttribute attrs "href" with
  | None | Some "" => None
  | Some href =>
      match URL_new_base href urlObj with
      | None => None
      | Some x =>
          match inScope host (URL_toString x) with
          | Some true => Some (normalizeUrl (URL_toString x))
          | _ => None
          end
      end
  end.

Fixpoint linkTargets (urlObj : URL) (nodes : list node) : list string :=
  match nodes with
  | [] => []
  | Anchor attrs _ :: rest =>
      match anchorTarget urlObj attrs with
      | Some nh => nh :: linkTargets urlObj rest
      | None => linkTargets urlObj rest
      end
  | _ :: rest => linkTargets urlObj rest
  end.

(** The page whose links the iteration from [s] rewrites, if it gets that
    far. *)
Definition rendered (s : state) : option (URL * document) :=
  if loop_condition s then
    match queue s with
    | [] => None
    | url :: _ =>
        if Map_has (visited s) url then None
        else
          match goto w (tick s) url with
          | Response status root =>
              if status_ok status then
                match URL_new url with
                | Some urlObj => Some (urlObj, root)
                | None => None
                end
              else None
          | _ => None
          end
    end
  else None.

Definition discovered (s : state) : list string :=
  match rendered s with
  | Some (urlObj, root) => linkTargets urlObj (doc_nodes root)
  | None => []
  end.

End Discovery.

(** How often a run went to [u]. *)
Definition is_visit (u : string) (e : effect) : bool :=
  match e with Visiting v => String.eqb v u | _ => false end.

Definition count_visits (u : string) (es : list effect) : nat :=
  List.length (filter (is_visit u) es).

Definition is_any_visit (e : effect) : bool :=
  match e with Visiting _ => true | _ => false end.

(** How many pages a run attempted. *)
Definition pages_attempted (es : list effect) : nat :=
  List.length (filter is_any_visit es).

Definition is_request (e : effect) : bool :=
  match e with HttpGet _ => true | _ => false end.

(** How many downloads a run asked the network for. *)
Definition requests (es : list effect) : nat :=
  List.length (filter is_request es).

(* ================================================================== *)
(** ** A reference platform

    The platform on the inputs of the concrete runs below: lower-case
    [http] and [https] URLs in serialized form, ASCII titles, and patterns
    without operators.  Outside that range its functions answer [None]
    (or drop the character) where the real ones may not. *)

Module Reference.

(** The characters the URL parser copies unchanged into a path, a query or
    a fragment. *)
Definition copied (c : ascii) : bool :=
  is_alnum c
  || includes ["-"; "."; "_"; "~"; "/"; ":"; "@"; "!"; "$"; "&"; "("; ")"; "*";
               "+"; ","; ";"; "="] (String c "").

Definition host_char (c : ascii) : bool :=
  is_lower c || is_digit c || Ascii.eqb c "." || Ascii.eqb c "-".

(** The label after the last dot of [h], reversed. *)
Definition last_label_rev (h : string) : string := before "." (string_rev h).

Definition host_ok (h : string) : bool :=
  string_forallb host_char h
  && negb (String.eqb (last_label_rev h) "")
  && string_forallb is_lower (last_label_rev h).

Definition path_ok (p : string) : bool :=
  string_forallb copied p && negb (contains "/." p) && negb (contains "//" p).

Definition part_ok (o : option string) : bool :=
  match o with
  | Some q => string_forallb (fun c => copied c || Ascii.eqb c "?") q
  | None => true
  end.

Definition fragment_of (s : string) : option string := after "#" s.
Definition query_of (s : string) : option string := after "?" (before "#" s).
Definition body_of (s : string) : string := before "?" (before "#" s).

Definition scheme_of (s : string) : option (string * string) :=
  if starts_with "https://" s then Some ("https", drop 8 s)
  else if starts_with "http://" s then Some ("http", drop 7 s)
  else None.

Definition checked (x : URL) : option URL :=
  if path_ok (url_path x) && part_ok (url_query x) && part_ok (url_fragment x)
  then Some x else None.

Definition URL_new (u : string) : option URL :=
  match scheme_of (body_of u) with
  | Some (scheme, rest) =>
      let h := before "/" rest in
      let p := match after "/" rest with Some p => "/" ++ p | None => "/" end in
      if host_ok h
      then checked (mkURL scheme "" (Some h) p (query_of u) (fragment_of u))
      else None
  | None => None
  end.

(** The directory of a path: up to and with its last slash. *)
Definition directory (p : string) : string :=
  string_rev (match after "/" (string_rev p) with
              | Some d => String "/" d
              | None => "/"
              end).

Definition URL_new_base (u : string) (base : URL) : option URL :=
  let with_path p q :=
    checked (mkURL (url_scheme base) (url_userinfo base) (url_authority base)
                   p q (fragment_of u)) in
  if contains ":" (before "/" (body_of u)) then URL_new u
  else
    match u with
    | "" => Some (URL_clear_hash base)
    | String "#" _ => with_path (url_path base) (url_query base)
    | String "?" _ => with_path (url_path base) (query_of u)
    | String "/" _ => with_path (body_of u) (query_of u)
    | _ =>
        match body_of u with
        | "" => None
        | rel => with_path (directory (url_path base) ++ rel) (query_of u)
        end
    end.

(** [slugify] with [lower] and [strict] on ASCII text: the words of the
    character map, the replacement character read as a space, everything
    but letters, digits and white space removed, the ends trimmed, runs of
    white space turned into one hyphen, lower case. *)
Definition charMap (c : ascii) : string :=
  if Ascii.eqb c "$" then "dollar"
  else if Ascii.eqb c "%" then "percent"
  else if Ascii.eqb c "&" then "and"
  else if Ascii.eqb c "<" then "less"
  else if Ascii.eqb c ">" then "greater"
  else if Ascii.eqb c "|" then "or"
  else if Ascii.eqb c "-" then " "
  else String c "".

Fixpoint mapped_chars (s : string) : string :=
  match s with
  | "" => ""
  | String c s' => charMap c ++ mapped_chars s'
  end.

Fixpoint hyphenate (in_gap : bool) (s : string) : string :=
  match s with
  | "" => ""
  | String c s' =>
      if is_space c
      then (if in_gap then hyphenate true s' else String "-" (hyphenate true s'))
      else String c (hyphenate false s')
  end.

Definition slugify (s : string) : string :=
  string_map to_lower
    (hyphenate false
       (trim (string_filter (fun c => is_alnum c || is_space c) (mapped_chars s)))).

(** Patterns of ordinary characters and dots. *)
Inductive atom := Lit (c : ascii) | AnyChar.

Definition operator (c : ascii) : bool :=
  includes ["*"; "+"; "?"; "^"; "$"; "{"; "}"; "("; ")"; "|"; "["; "]"]
           (String c "")
  || Ascii.eqb c backslash.

Fixpoint compile (source : string) : option (list atom) :=
  match source with
  | "" => Some []
  | String c rest =>
      if operator c then None
      else
        match compile rest with
        | Some p => Some ((if Ascii.eqb c "." then AnyChar else Lit c) :: p)
        | None => None
        end
  end.

Fixpoint matches (p : list atom) (s : string) : bool :=
  match p, s with
  | [], _ => true
  | Lit a :: p', String c s' => Ascii.eqb a c && matches p' s'
  | AnyChar :: p', String c s' => negb (is_line_terminator c) && matches p' s'
  | _ :: _, "" => false
  end.

Fixpoint replace_from (p : list atom) (replacement : string) (skip : nat)
    (s : string) : string :=
  match s with
  | "" => ""
  | String c s' =>
      match skip with
      | S k => replace_from p replacement k s'
      | 0 =>
          if matches p s
          then replacement ++ replace_from p replacement (List.length p - 1) s'
          else String c (replace_from p replacement 0 s')
      end
  end.

Definition RegExp_replace_all (source replacement subject : string)
    : option string :=
  match compile source with
  | Some (a :: p) =>
      if contains "$" replacement then None
      else Some (replace_from (a :: p) replacement 0 subject)
  | _ => None
  end.

End Reference.

Definition reference_platform : Platform :=
  {| URL_new := Reference.URL_new;
     URL_new_base := Reference.URL_new_base;
     slugify := Reference.slugify;
     RegExp_replace_all := Reference.RegExp_replace_all |}.

(* ================================================================== *)
(** ** Small sites *)

Module Sites.

Definition origin : string := "https://uxuitereshkin.notion.site".

Definition home_url : string :=
  origin ++ "/Home-e5e41687f6254b4ebc2fa8a225732db4".
Definition second_url : string :=
  origin ++ "/Second-0123456789abcdef0123456789abcdef".
Definition third_url : string :=
  origin ++ "/Third-fedcba9876543210fedcba9876543210".

Definition host : string := "uxuitereshkin.notion.site".

(** [new URL(home_url)]. *)
Definition home_base : URL :=
  mkURL "https" "" (Some host) "/Home-e5e41687f6254b4ebc2fa8a225732db4"
        None None.

Definition page (title : string) (nodes : list node) : document :=
  mkDoc (Some title) true [] nodes [].

Definition link (href text : string) : node := Anchor [("href", href)] text.

(** A table of pages as a browser: a URL in the table renders with its
    status, any other gets no response. *)
Fixpoint browse (pages : list (string * (nat * document))) (u : string)
    : navigation :=
  match pages with
  | [] => NoResponse
  | (v, (status, doc)) :: rest =>
      if String.eqb v u then Response status doc else browse rest u
  end.

Definition static (pages : list (string * (nat * document))) : world :=
  mkWorld (fun _ => browse pages) (fun _ _ => None) (fun _ => true).

(** A seed page with one link to a second page and one external link. *)
Definition two_pages : world :=
  static
    [ (home_url, (200, page "Home"
         [ Markup "<h1>Home</h1>";
           link second_url "Read more";
           link "https://example.com/" "Example" ]));
      (second_url, (200, page "Second Page" [ Markup "<p>Hello</p>" ])) ].

(** Two pages with the same title. *)
Definition same_titles : world :=
  static
    [ (home_url, (200, page "Notes" [ link second_url "More notes" ]));
      (second_url, (200, page "Notes" [ Markup "<p>Other notes</p>" ])) ].

(** The second page answers with status 500; the third links to it
    again. *)
Definition broken_second : world :=
  static
    [ (home_url, (200, page "Home"
         [ link second_url "Second"; link third_url "Third" ]));
      (second_url, (500, page "Error" []));
      (third_url, (200, page "Third" [ link second_url "Second" ])) ].

Definition fourth_url : string :=
  origin ++ "/Fourth-00112233445566778899aabbccddeeff".

(** The second page answers with status 500 and no other page links to
    it; the third page links to a fourth. *)
Definition broken_quiet : world :=
  static
    [ (home_url, (200, page "Home"
         [ link second_url "Second"; link third_url "Third" ]));
      (second_url, (500, page "Error" []));
      (third_url, (200, page "Third" [ link fourth_url "Fourth" ]));
      (fourth_url, (200, page "Fourth" [ Markup "<p>End</p>" ])) ].



(** A page that links to itself. *)
Definition self_link : world :=
  static [ (home_url, (200, page "Home" [ link home_url "Home" ])) ].

(** The same page on a disk that refuses every write. *)
Definition read_only_disk : world :=
  mkWorld (goto self_link) (fun _ _ => None) (fun _ => false).

(** A seed page with links to [n] pages, none of which answers. *)
Definition numbered (i : nat) : string :=
  let d := nat_to_string i in
  origin ++ "/" ++ String.concat "" (repeat "0" (32 - String.length d)) ++ d.

Definition dead_links (n : nat) : world :=
  static
    [ (home_url, (200, page "Home"
         (map (fun i => link (numbered i) "Page") (seq 1 n)))) ].

(** [n] pages in a row, each with a link to the next. *)
Definition chain (n : nat) : world :=
  static
    (map (fun i => (numbered i,
                    (200, page ("Page " ++ nat_to_string i)
                               [ link (numbered (S i)) "Next" ])))
         (seq 1 n)).

(** An out-of-scope link with a relative [href]. *)
Definition about_link : attributes := [("href", "/about")].

(** An image asked for twice from a network that is down. *)
Definition picture : string := "https://example.com/images/a.png".
Definition network_down : string -> option string := fun _ => None.

End Sites.

(* ================================================================== *)
(** ** Vocabulary of the statements *)



Definition directory_after (r : files * list effect * bool) : files := fst (fst r).
Definition effects_of (r : files * list effect * bool) : list effect := snd (fst r).

(** The effects of the image block. *)
Definition asset_effect (e : effect) : bool :=
  match e with
  | HttpGet _ | AssetSaved _ | ImageFailed _ => true
  | _ => false
  end.

(** No page is attempted in [es]. *)
Definition silent (es : list effect) : Prop :=
  forallb (fun e => negb (is_any_visit e)) es = true.

Section Outcomes.
Context `{Platform}.
Variable w : world.
Variable host : string.

(** What one iteration does to a state whose queue is [url :: rest]: the
    head is dropped because it is visited, or skipped before its links are
    looked at, or its links are rewritten and the page is saved or not. *)
Inductive outcome (s s' : state) (url : string) (rest : list string) : Prop :=
| Dropped :
    Map_has (visited s) url = true ->
    visited s' = visited s -> queue s' = rest -> trace s' = trace s ->
    outcome s s' url rest
| Skipped (e : effect) :
    Map_has (visited s) url = false ->
    rendered w s = None ->
    visited s' = visited s -> queue s' = rest ->
    trace s' = (trace s ++ [Visiting url; e])%list -> is_any_visit e = false ->
    outcome s s' url rest
| Processed (urlObj : URL) (root : document) (log : list effect) :
    Map_has (visited s) url = false ->
    rendered w s = Some (urlObj, root) ->
    queue s' = snd (rewriteLinks host urlObj (visited s) (doc_nodes root) rest) ->
    silent log ->
    trace s' = (trace s ++ Visiting url :: log)%list ->
    (page_writable w (tick s) = true
     /\ exists meta, visited s' = Map_set (visited s) url meta)
    \/ (page_writable w (tick s) = false /\ visited s' = visited s) ->
    outcome s s' url rest.

End Outcomes.

(** The run over [Sites.broken_quiet] when the second page comes up. *)
Definition before_skip : state :=
  @run reference_platform Sites.broken_quiet Sites.host 1 (seeded Sites.home_url).





(** The names [uniqueSlug] tries, in order: the base, then the base with
    [-2], [-3], ... *)
Definition slug_candidate (base : string) (k : nat) : string :=
  match k with
  | 0 => base
  | S _ => base ++ "-" ++ nat_to_string (S k)
  end.

(** Members of [table], one after the other. *)
Inductive chain (table : list string) : string -> Prop :=
| chain_end : chain table ""
| chain_more (w s : string) :
    In w table -> chain table s -> chain table (w ++ s).

(** A run of white-space characters. *)
Definition white : string -> Prop := chain js_white_space.

(** No white-space character at either end. *)
Definition first_is_space (s : string) : bool :=
  existsb (fun w => starts_with w s) js_white_space.

Definition last_is_space (s : string) : bool :=
  existsb (fun w => ends_with w s) js_white_space.

Definition trimmed (s : string) : bool :=
  negb (first_is_space s) && negb (last_is_space s).

Definition no_backslash (s : string) : bool :=
  string_forallb (fun c => negb (Ascii.eqb c backslash)) s.

(** What the link rewriter makes of a node: it depends on the page URL and
    on the map, not on the queue. *)
Definition rewrittenNode `{Platform} (host : string) (urlObj : URL)
    (visited : Visited) (n : node) : node :=
  match n with
  | Anchor attrs text =>
      Anchor (fst (rewriteAnchor host urlObj visited [] attrs text)) text
  | _ => n
  end.




(** How many pages a run saved. *)
Definition is_saved (e : effect) : bool :=
  match e with PageSaved _ => true | _ => false end.

Definition pages_saved (es : list effect) : nat :=
  List.length (filter is_saved es).

(** The URL is the normalized form of an in-scope URL. *)
Definition scoped `{Platform} (host v : string) : Prop :=
  exists abs, inScope host abs = Some true /\ v = normalizeUrl abs.

(** The seed answers: navigation gives a response with a success status. *)
Definition answers (w : world) (t : nat) (u : string) : bool :=
  match goto w t u with
  | Response status _ => status_ok status
  | _ => false
  end.

(** The pages on disk and the entries of the map go together. *)
Definition files_ok (s : state) : Prop :=
  (forall v m, In (v, m) (visited s) -> file_exists (site s) (filename m) = true)
  /\ (forall f, file_exists (site s) f = true ->
        exists v m, In (v, m) (visited s) /\ filename m = f)
  /\ Map_size (visited s) = pages_saved (trace s)
  /\ pages_saved (trace s) <= pages_attempted (trace s)
  /\ pages_attempted (trace s) <= tick s.


(** Neither a dot nor a backslash. *)
Definition plain_char (c : ascii) : bool :=
  negb (Ascii.eqb c ".") && negb (Ascii.eqb c backslash).

Definition plain (s : string) : bool := string_forallb plain_char s.

(** The slug of a title before any numbering. *)
Definition base_slug `{Platform} (title : string) : string :=
  slice0 60 (or_else (slugify title) "page").

(* ================================================================== *)
(** * Properties *)

(* ================================================================== *)
(** ** Facts about strings *)

Lemma append_assoc (a b c : string) : (a ++ b) ++ c = a ++ (b ++ c).
Proof. induction a as [|x a IH]; simpl; [reflexivity | now rewrite IH]. Qed.

Lemma forallb_append (p : ascii -> bool) (a b : string) :
  string_forallb p (a ++ b) = string_forallb p a && string_forallb p b.
Proof.
  induction a as [|x a IH]; simpl; [reflexivity|].
  now rewrite IH, andb_assoc.
Qed.

Lemma slice0_drop (n : nat) (s : string) : slice0 n s ++ drop n s = s.
Proof.
  revert s; induction n as [|n IH]; intros [|c s]; simpl; try reflexivity.
  now rewrite IH.
Qed.


Lemma append_inv_head (a b c : string) : a ++ b = a ++ c -> b = c.
Proof.
  induction a as [|x a IH]; simpl; intros E; [exact E|].
  injection E as E. now apply IH.
Qed.

(* ================================================================== *)
(** ** The page classifier *)







(* ================================================================== *)
(** ** The URL normalizer *)

(** C5, as the code has it.  [normalizeUrl] takes the URL string alone, no
    base.  A string that parses as an absolute URL is turned into the
    serialized URL with a null fragment, so two such strings whose URLs
    differ in the fragment only normalize to the same string; a string that
    does not parse on its own (malformed, or relative) comes back
    unchanged.  Being a function of [u], it gives the same output for the
    same input. *)
Theorem normalizeUrl_spec `{Platform} (u : string) :
  (forall x, URL_new u = Some x ->
     normalizeUrl u = URL_toString (URL_clear_hash x)
     /\ url_fragment (URL_clear_hash x) = None)
  /\ (forall u' x x',
        URL_new u = Some x -> URL_new u' = Some x' ->
        URL_clear_hash x = URL_clear_hash x' ->
        normalizeUrl u = normalizeUrl u')
  /\ (URL_new u = None -> normalizeUrl u = u).
Proof.
  unfold normalizeUrl. split; [|split].
  - intros x E. now rewrite E.
  - intros u' x x' E E' Ex. now rewrite E, E', Ex.
  - intros E. now rewrite E.
Qed.

Lemma normalizeUrl_spec_witness :
  @normalizeUrl reference_platform "https://h.site/p#a" = "https://h.site/p"
  /\ @normalizeUrl reference_platform "https://h.site/p#a"
     = @normalizeUrl reference_platform "https://h.site/p#b".
Proof.
  destruct (@normalizeUrl_spec reference_platform "https://h.site/p#a")
    as (Habs & Hsame & _).
  split.
  - destruct (Habs (mkURL "https" "" (Some "h.site") "/p" None (Some "a")))
      as [E _]; [reflexivity | exact E].
  - eapply Hsame; reflexivity.
Defined.

(** C5 as stated fails: there is no base to resolve against, so two
    relative URLs that differ in the fragment only are both returned as
    they are, fragment included, although each resolves against the page
    URL. *)
Lemma normalizeUrl_relative_counterexample :
  @normalizeUrl reference_platform "/p#a" = "/p#a"
  /\ @normalizeUrl reference_platform "/p#b" = "/p#b"
  /\ String.eqb (@normalizeUrl reference_platform "/p#a")
                (@normalizeUrl reference_platform "/p#b") = false
  /\ option_map URL_toString
       (match @URL_new reference_platform Sites.home_url with
        | Some base => @URL_new_base reference_platform "/p#a" base
        | None => None
        end)
     = Some "https://uxuitereshkin.notion.site/p#a".
Proof. repeat split; reflexivity. Qed.

(* ================================================================== *)
(** ** The page classifier, continued *)










(* ================================================================== *)
(** ** The link rewriter *)

Lemma getAttribute_set_same (a : attributes) (k v : string) :
  getAttribute (setAttribute a k v) k = Some v.
Proof.
  induction a as [|[k' v'] a IH]; simpl.
  - now rewrite String.eqb_refl.
  - destruct (String.eqb k' k) eqn:E; simpl.
    + now rewrite String.eqb_refl.
    + now rewrite E.
Qed.

Lemma getAttribute_set_other (a : attributes) (k v k0 : string) :
  k0 <> k -> getAttribute (setAttribute a k v) k0 = getAttribute a k0.
Proof.
  intros Hk. induction a as [|[k' v'] a IH]; simpl.
  - apply String.eqb_neq in Hk. now rewrite String.eqb_sym, Hk.
  - destruct (String.eqb k' k) eqn:E; simpl.
    + apply String.eqb_eq in E as ->.
      apply String.eqb_neq in Hk. now rewrite String.eqb_sym, Hk.
    + now rewrite IH.
Qed.

(** C10.  An anchor whose [href] does not resolve against the page URL is
    left exactly as it was (no [href] change, no [target], no [rel]), nothing
    is enqueued for it, and the anchors after it are rewritten as if it had
    not been there. *)
Theorem unresolvable_anchor_untouched `{Platform}
    (host : string) (urlObj : URL) (visited : Visited) (queue : list string)
    (attrs : attributes) (text href : string) (rest : list node) :
  getAttribute attrs "href" = Some href ->
  URL_new_base href urlObj = None ->
  rewriteAnchor host urlObj visited queue attrs text = (attrs, queue)
  /\ rewriteLinks host urlObj visited (Anchor attrs text :: rest) queue
     = (Anchor attrs text :: fst (rewriteLinks host urlObj visited rest queue),
        snd (rewriteLinks host urlObj visited rest queue)).
Proof.
  intros Hhref Hnew.
  assert (E : rewriteAnchor host urlObj visited queue attrs text = (attrs, queue)).
  { unfold rewriteAnchor, anchorTry. rewrite Hhref, Hnew. now destruct href. }
  split; [exact E|].
  simpl. rewrite E.
  now destruct (rewriteLinks host urlObj visited rest queue).
Qed.

Lemma unresolvable_anchor_untouched_witness :
  @rewriteLinks reference_platform Sites.host Sites.home_base []
    [Anchor [("href", "http://")] "broken"; Sites.link Sites.second_url "Second"]
    []
  = ([Anchor [("href", "http://")] "broken";
      Anchor [("href", "second.html")] "Second"],
     [Sites.second_url]).
Proof.
  destruct (@unresolvable_anchor_untouched reference_platform
              Sites.host Sites.home_base [] [] [("href", "http://")]
              "broken" "http://" [Sites.link Sites.second_url "Second"])
    as [_ E]; [reflexivity | reflexivity |].
  rewrite E. reflexivity.
Defined.

(** C8, as the code has it.  An anchor whose resolved URL is out of scope
    keeps its [href] exactly as the page had it (the resolved absolute URL
    is not written back, so a relative [href] stays relative), gets
    [target] set to [_blank] and [rel] set to [noopener noreferrer], keeps every other
    attribute, and enqueues nothing. *)
Theorem external_anchor_marked `{Platform}
    (host : string) (urlObj : URL) (visited : Visited) (queue : list string)
    (attrs : attributes) (text href : string) (x : URL) :
  getAttribute attrs "href" = Some href ->
  href <> "" ->
  URL_new_base href urlObj = Some x ->
  inScope host (URL_toString x) = Some false ->
  let r := rewriteAnchor host urlObj visited queue attrs text in
  snd r = queue
  /\ getAttribute (fst r) "href" = Some href
  /\ getAttribute (fst r) "target" = Some "_blank"
  /\ getAttribute (fst r) "rel" = Some "noopener noreferrer"
  /\ (forall k, k <> "target" -> k <> "rel" ->
        getAttribute (fst r) k = getAttribute attrs k).
Proof.
  intros Hhref Hne Hnew Hout.
  assert (E : rewriteAnchor host urlObj visited queue attrs text
              = (setAttribute (setAttribute attrs "target" "_blank")
                              "rel" "noopener noreferrer", queue)).
  { unfold rewriteAnchor, anchorTry. rewrite Hhref, Hnew, Hout.
    destruct href; [contradiction | reflexivity]. }
  cbv zeta. rewrite E. simpl fst. simpl snd.
  split; [reflexivity | split; [|split; [|split]]].
  - rewrite !getAttribute_set_other by discriminate. exact Hhref.
  - rewrite getAttribute_set_other by discriminate.
    apply getAttribute_set_same.
  - apply getAttribute_set_same.
  - intros k Ht Hr. now rewrite !getAttribute_set_other.
Qed.

Lemma external_anchor_marked_witness :
  let r := @rewriteAnchor reference_platform Sites.host Sites.home_base [] []
             [("href", "https://example.com/")] "Example" in
  snd r = []
  /\ getAttribute (fst r) "href" = Some "https://example.com/"
  /\ getAttribute (fst r) "target" = Some "_blank"
  /\ getAttribute (fst r) "rel" = Some "noopener noreferrer"
  /\ (forall k, k <> "target" -> k <> "rel" ->
        getAttribute (fst r) k = getAttribute [("href", "https://example.com/")] k).
Proof.
  apply (@external_anchor_marked reference_platform Sites.host
           Sites.home_base [] [] [("href", "https://example.com/")]
           "Example" "https://example.com/"
           (mkURL "https" "" (Some "example.com") "/" None None));
    [reflexivity | discriminate | reflexivity | reflexivity].
Defined.

(** C8 as stated fails: the out-of-scope link [/about] on the home page
    resolves to an absolute URL, but its [href] is left relative. *)
Lemma external_anchor_counterexample :
  option_map URL_toString (@URL_new_base reference_platform "/about" Sites.home_base)
  = Some "https://uxuitereshkin.notion.site/about"
  /\ @inScope reference_platform Sites.host "https://uxuitereshkin.notion.site/about"
     = Some false
  /\ @rewriteAnchor reference_platform Sites.host Sites.home_base [] []
       Sites.about_link "About"
     = ([("href", "/about"); ("target", "_blank"); ("rel", "noopener noreferrer")],
        []).
Proof. repeat split; reflexivity. Qed.

(* ================================================================== *)
(** ** The asset fetcher *)

Lemma file_read_write_same (fs : files) (n c : string) :
  file_read (file_write fs n c) n = Some c.
Proof.
  induction fs as [|[n' c'] fs IH]; simpl.
  - now rewrite String.eqb_refl.
  - destruct (String.eqb n' n) eqn:E; simpl; now rewrite E.
Qed.

Lemma file_read_write_other (fs : files) (n c f : string) :
  f <> n -> file_read (file_write fs n c) f = file_read fs f.
Proof.
  intros Hf. induction fs as [|[n' c'] fs IH]; simpl.
  - apply String.eqb_neq in Hf. now rewrite String.eqb_sym, Hf.
  - destruct (String.eqb n' n) eqn:E; simpl.
    + apply String.eqb_eq in E as ->.
      apply String.eqb_neq in Hf. now rewrite String.eqb_sym, Hf.
    + now rewrite IH.
Qed.

(** C7, as the code has it.  For two fetches of one URL, one after the
    other: both use the file name [assetFilename abs]; a download is
    requested only for that URL and only when no file of that name exists;
    files that exist keep their content and the only file that can appear
    is the one of that name; when the file is absent and the first download
    succeeds, the two fetches make one request in all and the file holds
    what was downloaded; when the first download fails nothing is written
    and the second fetch asks again. *)
Theorem fetchAsset_twice (get1 get2 : string -> option string) (assets : files)
    (abs : string) :
  let name := assetFilename abs in
  let r1 := fetchAssetAlone get1 assets abs in
  let r2 := fetchAssetAlone get2 (directory_after r1) abs in
  (forall u, In (HttpGet u) (effects_of r1) ->
     u = abs /\ file_exists assets name = false)
  /\ (forall f c, file_read assets f = Some c ->
        file_read (directory_after r1) f = Some c)
  /\ (forall f, file_exists (directory_after r1) f = true ->
        file_exists assets f = true \/ f = name)
  /\ (file_exists assets name = true -> r1 = (assets, [], true))
  /\ (forall data, file_exists assets name = false -> get1 abs = Some data ->
        requests (effects_of r1 ++ effects_of r2) = 1
        /\ file_read (directory_after r2) name = Some data
        /\ directory_after r2 = directory_after r1)
  /\ (file_exists assets name = false -> get1 abs = None ->
        directory_after r1 = assets
        /\ requests (effects_of r1 ++ effects_of r2) = 2).
Proof.
  cbv zeta. unfold fetchAssetAlone, fetchAsset, directory_after, effects_of.
  destruct (file_exists assets (assetFilename abs)) eqn:Hx; simpl.
  - repeat split; try tauto; try discriminate; intros; now try left.
  - destruct (get1 abs) as [data|] eqn:Hg; simpl.
    + assert (Hw : file_exists (file_write assets (assetFilename abs) data)
                               (assetFilename abs) = true).
      { unfold file_exists. now rewrite file_read_write_same. }
      rewrite Hw. simpl.
      split; [|split; [|split; [|split; [|split]]]].
      * intros u [E | [E | []]]; [injection E as <- | discriminate]. now split.
      * intros f c Hf. rewrite file_read_write_other; [exact Hf|].
        intros ->. unfold file_exists in Hx. now rewrite Hf in Hx.
      * intros f Hf. destruct (String.eqb_spec f (assetFilename abs)) as [E|E];
          [now right | left].
        unfold file_exists in *. now rewrite file_read_write_other in Hf.
      * discriminate.
      * intros data' _ E. injection E as <-.
        now rewrite file_read_write_same.
      * discriminate.
    + rewrite Hx. simpl.
      split; [|split; [|split; [|split; [|split]]]]; try tauto; try discriminate.
      * intros u [E | []]. injection E as <-. now split.
      * intros _ _. split; [reflexivity|]. now destruct (get2 abs).
Qed.

Lemma fetchAsset_twice_witness :
  let get := fun _ : string => Some "PNG" in
  let r1 := fetchAssetAlone get [] Sites.picture in
  let r2 := fetchAssetAlone get (directory_after r1) Sites.picture in
  requests (effects_of r1 ++ effects_of r2) = 1
  /\ file_read (directory_after r2) (assetFilename Sites.picture) = Some "PNG"
  /\ directory_after r2 = directory_after r1.
Proof.
  destruct (fetchAsset_twice (fun _ => Some "PNG") (fun _ => Some "PNG") []
              Sites.picture) as (_ & _ & _ & _ & Hone & _).
  apply Hone; reflexivity.
Defined.

(** C7 as stated fails.  With the network down, two fetches of one URL ask
    the network twice and leave no file.  And the two image tasks of one
    page whose [src] attributes resolve to one URL both find the directory
    empty and both ask for the URL, before either download is written. *)
Lemma fetchAsset_twice_counterexample :
  (let r1 := fetchAssetAlone Sites.network_down [] Sites.picture in
   let r2 := fetchAssetAlone Sites.network_down (directory_after r1) Sites.picture in
   requests (effects_of r1 ++ effects_of r2) = 2 /\ directory_after r2 = [])
  /\ snd (@downloadImages reference_platform Sites.home_base
            (fun _ => Some "PNG") []
            ["/a.png"; "https://uxuitereshkin.notion.site/a.png"] [])
     = [HttpGet "https://uxuitereshkin.notion.site/a.png";
        HttpGet "https://uxuitereshkin.notion.site/a.png";
        AssetSaved "aHR0cHM6Ly91eHVpdGVyZXNo.bin";
        AssetSaved "aHR0cHM6Ly91eHVpdGVyZXNo.bin"]
  /\ requests
       (snd (@downloadImages reference_platform Sites.home_base
               (fun _ => Some "PNG") []
               ["/a.png"; "https://uxuitereshkin.notion.site/a.png"] []))
     = 2.
Proof. repeat split; reflexivity. Qed.

(** The image block of a page with one image source is the fetch of that
    asset on its own. *)
Lemma downloadImages_single `{Platform} (urlObj : URL)
    (get : string -> option string) (assets : files) (src : string)
    (nodes : list node) :
  downloadImages urlObj get assets [src] nodes
  = match URL_new_base src urlObj with
    | None => (assets, nodes, [ImageFailed src])
    | Some x =>
        let abs := URL_toString x in
        match fetchAssetAlone get assets abs with
        | (assets', log, true) =>
            (assets', rewriteSrc src (assetFilename abs) nodes, log)
        | (assets', log, false) => (assets', nodes, (log ++ [ImageFailed src])%list)
        end
    end.
Proof.
  unfold downloadImages, fetchAssetAlone, fetchAsset. simpl.
  destruct (URL_new_base src urlObj) as [x|]; [|reflexivity].
  cbv zeta.
  destruct (file_exists assets (assetFilename (URL_toString x))); [reflexivity|].
  simpl. now destruct (get (URL_toString x)).
Qed.

(* ================================================================== *)
(** ** Facts about the queue, the map and the trace *)

Lemma includes_true (l : list string) (x : string) :
  includes l x = true <-> In x l.
Proof.
  unfold includes. rewrite existsb_exists. split.
  - intros (y & Hy & E). apply String.eqb_eq in E. now subst.
  - intros Hx. exists x. split; [exact Hx | apply String.eqb_refl].
Qed.

Lemma includes_false (l : list string) (x : string) :
  includes l x = false <-> ~ In x l.
Proof.
  rewrite <- includes_true. destruct (includes l x); split; intuition congruence.
Qed.

Lemma Map_has_set (m : Visited) (k k0 : string) (v : PageMeta) :
  Map_has (Map_set m k v) k0 = String.eqb k k0 || Map_has m k0.
Proof.
  unfold Map_has. induction m as [|[k' v'] m IH]; simpl.
  - now destruct (String.eqb k k0).
  - destruct (String.eqb k' k) eqn:E; simpl.
    + apply String.eqb_eq in E as ->. now destruct (String.eqb k k0).
    + destruct (String.eqb k' k0) eqn:E0.
      * now rewrite orb_true_r.
      * exact IH.
Qed.

Lemma Map_size_set_new (m : Visited) (k : string) (v : PageMeta) :
  Map_has m k = false -> Map_size (Map_set m k v) = S (Map_size m).
Proof.
  unfold Map_has, Map_size. induction m as [|[k' v'] m IH]; simpl; [reflexivity|].
  destruct (String.eqb k' k) eqn:E; [discriminate|].
  intros Hm. simpl. now rewrite IH.
Qed.

Lemma silent_app (a b : list effect) : silent a -> silent b -> silent (a ++ b).
Proof. unfold silent. rewrite forallb_app. intros -> ->. reflexivity. Qed.

Lemma count_visits_app (u : string) (a b : list effect) :
  count_visits u (a ++ b) = count_visits u a + count_visits u b.
Proof. unfold count_visits. now rewrite filter_app, length_app. Qed.

Lemma silent_count (u : string) (es : list effect) :
  silent es -> count_visits u es = 0.
Proof.
  unfold silent, count_visits. induction es as [|e es IH]; simpl; [reflexivity|].
  intros Hs. apply andb_true_iff in Hs as [He Hs].
  destruct e; simpl in *; try discriminate; now apply IH.
Qed.

Section RewriterFacts.
Context `{Platform}.
Variable host : string.
Variable urlObj : URL.
Variable visited : Visited.

(** An anchor leaves the queue alone or appends its target, which is then
    neither visited nor queued. *)
Lemma rewriteAnchor_queue (queue : list string) (attrs : attributes) (text : string) :
  snd (rewriteAnchor host urlObj visited queue attrs text) = queue
  \/ exists nh,
       snd (rewriteAnchor host urlObj visited queue attrs text) = (queue ++ [nh])%list
       /\ anchorTarget host urlObj attrs = Some nh
       /\ Map_has visited nh = false
       /\ ~ In nh queue.
Proof.
  unfold rewriteAnchor, anchorTry, anchorTarget.
  destruct (getAttribute attrs "href") as [[|c href]|]; try (now left).
  destruct (URL_new_base (String c href) urlObj) as [x|]; [|now left].
  destruct (inScope host (URL_toString x)) as [[|]|]; try (now left).
  simpl.
  destruct (Map_has visited (normalizeUrl (URL_toString x))) eqn:Hv; simpl;
    [now left|].
  destruct (includes queue (normalizeUrl (URL_toString x))) eqn:Hq; simpl;
    [now left|].
  right. exists (normalizeUrl (URL_toString x)).
  repeat split; [exact Hv | now apply includes_false].
Qed.

Lemma rewriteLinks_queue (nodes : list node) :
  forall queue,
    let queue' := snd (rewriteLinks host urlObj visited nodes queue) in
    (NoDup queue -> NoDup queue')
    /\ (forall v, In v queue' ->
          In v queue
          \/ (In v (linkTargets host urlObj nodes) /\ Map_has visited v = false))
    /\ (forall v, In v queue -> In v queue').
Proof.
  induction nodes as [|n nodes IH]; intros queue; cbv zeta.
  - simpl. repeat split; auto.
  - destruct n as [html | attrs text | attrs]; simpl.
    + specialize (IH queue). cbv zeta in IH.
      destruct (rewriteLinks host urlObj visited nodes queue) as [rest' q']. exact IH.
    + pose proof (rewriteAnchor_queue queue attrs text) as Ha.
      destruct (rewriteAnchor host urlObj visited queue attrs text) as [attrs' q1].
      simpl in Ha. specialize (IH q1). cbv zeta in IH.
      destruct (rewriteLinks host urlObj visited nodes q1) as [rest' q2].
      simpl in *. destruct IH as (IHnd & IHin & IHmono).
      destruct Ha as [-> | (nh & -> & Ht & Hv & Hq)].
      * repeat split; auto.
        intros v Hv. destruct (IHin v Hv) as [Hq | [Hl Hm]]; [now left | right].
        split; [|exact Hm].
        destruct (anchorTarget host urlObj attrs); [now right | exact Hl].
      * rewrite Ht. repeat split.
        -- intros Hnd. apply IHnd. apply NoDup_app; repeat split; auto.
           ++ constructor; [intros [] | constructor].
           ++ intros a Ha [<- | []]. contradiction.
        -- intros v Hin. destruct (IHin v Hin) as [Hq' | [Hl Hm]].
           ++ apply in_app_or in Hq' as [Hq' | [<- | []]]; [now left | right].
              split; [now left | exact Hv].
           ++ right. split; [now right | exact Hm].
        -- intros v Hin. apply IHmono. apply in_or_app. now left.
    + specialize (IH queue). cbv zeta in IH.
      destruct (rewriteLinks host urlObj visited nodes queue) as [rest' q']. exact IH.
Qed.

Lemma imageStart_log (seen : files)
    (st : list node * list effect * list (string * string)) (src : string) :
  forallb asset_effect (snd (fst st)) = true ->
  forallb asset_effect (snd (fst (imageStart urlObj seen st src))) = true.
Proof.
  destruct st as [[nodes log] waiting]. simpl. intros Hs.
  destruct (URL_new_base src urlObj) as [x|]; simpl.
  - destruct (file_exists seen (assetFilename (URL_toString x))); simpl;
      [exact Hs|].
    rewrite forallb_app, Hs. reflexivity.
  - rewrite forallb_app, Hs. reflexivity.
Qed.

Lemma imageFinish_log (get : string -> option string)
    (st : files * list node * list effect) (task : string * string) :
  forallb asset_effect (snd st) = true ->
  forallb asset_effect (snd (imageFinish get st task)) = true.
Proof.
  destruct st as [[a nodes] log], task as [src abs]. simpl. intros Hs.
  destruct (get abs); simpl; rewrite forallb_app, Hs; reflexivity.
Qed.

(** The image block logs requests, saved assets and failed images, and
    nothing else. *)
Lemma downloadImages_log (get : string -> option string) (assets : files)
    (images : list string) (nodes : list node) :
  forallb asset_effect (snd (downloadImages urlObj get assets images nodes)) = true.
Proof.
  unfold downloadImages.
  assert (G1 : forall st, forallb asset_effect (snd (fst st)) = true ->
              forallb asset_effect
                (snd (fst (fold_left (imageStart urlObj assets) images st))) = true).
  { induction images as [|src images IH]; intros st Hs; simpl; [exact Hs|].
    apply IH. now apply imageStart_log. }
  specialize (G1 (nodes, [], []) eq_refl).
  destruct (fold_left (imageStart urlObj assets) images (nodes, [], []))
    as [[nodes1 log1] waiting].
  simpl in G1.
  assert (G2 : forall st, forallb asset_effect (snd st) = true ->
              forallb asset_effect
                (snd (fold_left (imageFinish get) waiting st)) = true).
  { induction waiting as [|task waiting IH]; intros st Hs; simpl; [exact Hs|].
    apply IH. now apply imageFinish_log. }
  apply G2. exact G1.
Qed.

Lemma downloadImages_silent (get : string -> option string) (assets : files)
    (images : list string) (nodes : list node) :
  silent (snd (downloadImages urlObj get assets images nodes)).
Proof.
  pose proof (downloadImages_log get assets images nodes) as Hl.
  unfold silent.
  induction (snd (downloadImages urlObj get assets images nodes)) as [|e es IH];
    [reflexivity|].
  simpl in *. apply andb_true_iff in Hl as [He Hl].
  rewrite (IH Hl), andb_true_r. now destruct e.
Qed.

End RewriterFacts.

Section CrawlFacts.
Context `{Platform}.
Variable w : world.
Variable host : string.

Lemma step_idle (s : state) : loop_condition s = false -> step w host s = s.
Proof. intros E. unfold step. now rewrite E. Qed.

Lemma step_outcome (s : state) (url : string) (rest : list string) :
  loop_condition s = true -> queue s = url :: rest ->
  outcome w host s (step w host s) url rest /\ tick (step w host s) = S (tick s).
Proof.
  intros Hc Hq. unfold step. rewrite Hc, Hq.
  destruct (Map_has (visited s) url) eqn:Hv; simpl.
  { split; [now apply Dropped | reflexivity]. }
  assert (Hskip : forall e, is_any_visit e = false ->
            rendered w s = None ->
            outcome w host s
              (let s' := say (say (mkState (visited s) rest (site s) (assets s)
                                           (trace s) (tick s)) [Visiting url]) [e] in
               mkState (visited s') (queue s') (site s') (assets s') (trace s')
                       (S (tick s))) url rest).
  { intros e He Hr. apply Skipped with (e := e); simpl; auto.
    now rewrite <- app_assoc. }
  assert (Hr : rendered w s
               = match goto w (tick s) url with
                 | Response status root =>
                     if status_ok status then
                       match URL_new url with
                       | Some urlObj => Some (urlObj, root)
                       | None => None
                       end
                     else None
                 | _ => None
                 end).
  { unfold rendered. now rewrite Hc, Hq, Hv. }
  destruct (goto w (tick s) url) as [| |status root].
  - split; [now apply Hskip | reflexivity].
  - split; [now apply Hskip | reflexivity].
  - destruct (status_ok status).
    2:{ split; [now apply Hskip | reflexivity]. }
    unfold processPage. simpl.
    destruct (URL_new url) as [urlObj|].
    2:{ split; [now apply Hskip | reflexivity]. }
    destruct (rewriteLinks host urlObj (visited s) (doc_nodes root) rest)
      as [nodes1 queue1] eqn:Hl.
    pose proof (downloadImages_silent urlObj (axios_get w (tick s)) (assets s)
                  (imageSources (doc_nodes root))
                  (doc_nodes (injectMinimalBundle (set_nodes root nodes1)))) as Hs.
    destruct (downloadImages urlObj (axios_get w (tick s)) (assets s)
                (imageSources (doc_nodes root))
                (doc_nodes (injectMinimalBundle (set_nodes root nodes1))))
      as [[assets1 nodes2] log].
    simpl in Hs.
    destruct (page_writable w (tick s)) eqn:Hw; simpl.
    + split; [|reflexivity].
      apply Processed with (urlObj := urlObj) (root := root)
        (log := (log ++ [PageSaved (uniqueSlug (pageTitle (doc_title root)) (visited s)
                                    ++ ".html")])%list); simpl; auto.
      * now rewrite Hl.
      * apply silent_app; [exact Hs | reflexivity].
      * now rewrite <- app_assoc.
      * left. split; [exact Hw | eauto].
    + split; [|reflexivity].
      apply Processed with (urlObj := urlObj) (root := root)
        (log := (log ++ [PageError])%list); simpl; auto.
      * now rewrite Hl.
      * apply silent_app; [exact Hs | reflexivity].
      * now rewrite <- app_assoc.
Qed.

Lemma loop_condition_queue (s : state) :
  loop_condition s = true ->
  exists url rest, queue s = url :: rest /\ Map_size (visited s) < MAX_PAGES.
Proof.
  unfold loop_condition. destruct (queue s) as [|url rest]; [discriminate|].
  intros E. apply Nat.ltb_lt in E. eauto.
Qed.

Lemma discovered_rendered (s : state) (urlObj : URL) (root : document) :
  rendered w s = Some (urlObj, root) ->
  discovered w host s = linkTargets host urlObj (doc_nodes root).
Proof. intros E. unfold discovered. now rewrite E. Qed.

(** The queue stays free of duplicates. *)
Lemma step_NoDup (s : state) : NoDup (queue s) -> NoDup (queue (step w host s)).
Proof.
  intros Hnd. destruct (loop_condition s) eqn:Hc.
  2:{ now rewrite step_idle. }
  destruct (loop_condition_queue s Hc) as (url & rest & Hq & _).
  destruct (step_outcome s url rest Hc Hq) as [Ho _].
  rewrite Hq in Hnd. apply NoDup_cons_iff in Hnd as [_ Hnd].
  destruct Ho as [_ _ -> _ | e _ _ _ -> _ _ | urlObj root log _ _ -> _ _ _]; auto.
  now apply (rewriteLinks_queue host urlObj (visited s) (doc_nodes root) rest).
Qed.

(** What is queued after an iteration was queued behind the head before
    it, or is a link of the page just rendered to a URL not visited then. *)
Lemma step_queue (s : state) (v : string) :
  loop_condition s = true ->
  In v (queue (step w host s)) ->
  In v (tl (queue s))
  \/ (In v (discovered w host s) /\ Map_has (visited s) v = false).
Proof.
  intros Hc Hin.
  destruct (loop_condition_queue s Hc) as (url & rest & Hq & _).
  destruct (step_outcome s url rest Hc Hq) as [Ho _].
  rewrite Hq. simpl.
  destruct Ho as [_ _ E _ | e _ _ _ E _ _ | urlObj root log _ Hr E _ _ _];
    rewrite E in Hin; auto.
  apply (rewriteLinks_queue host urlObj (visited s) (doc_nodes root) rest) in Hin.
  rewrite (discovered_rendered s urlObj root Hr). tauto.
Qed.

(** A key of the map after an iteration was one before it, or is the head
    of the queue, just rendered. *)
Lemma step_visited (s : state) (v : string) :
  loop_condition s = true ->
  Map_has (visited (step w host s)) v = true ->
  Map_has (visited s) v = true
  \/ (hd_error (queue s) = Some v /\ rendered w s <> None
      /\ Map_has (visited s) v = false).
Proof.
  intros Hc Hin.
  destruct (loop_condition_queue s Hc) as (url & rest & Hq & _).
  destruct (step_outcome s url rest Hc Hq) as [Ho _].
  destruct Ho as [_ E _ _ | e _ _ E _ _ _ | urlObj root log Hv Hr _ _ _ Hw];
    try (rewrite E in Hin; now left).
  destruct Hw as [[_ (meta & E)] | [_ E]]; rewrite E in Hin; [|now left].
  rewrite Map_has_set in Hin. apply orb_true_iff in Hin as [Hin | Hin];
    [|now left].
  apply String.eqb_eq in Hin as <-. right. rewrite Hq, Hr. repeat split; auto.
  discriminate.
Qed.

(** An iteration goes to the head of the queue when that is not visited,
    and to no other URL. *)
Lemma step_visits (s : state) (u : string) :
  loop_condition s = true ->
  count_visits u (trace (step w host s))
  = count_visits u (trace s)
    + match queue s with
      | url :: _ =>
          if String.eqb url u && negb (Map_has (visited s) url) then 1 else 0
      | [] => 0
      end.
Proof.
  intros Hc.
  destruct (loop_condition_queue s Hc) as (url & rest & Hq & _).
  destruct (step_outcome s url rest Hc Hq) as [Ho _].
  rewrite Hq.
  destruct Ho as [Hv _ _ E | e Hv _ _ _ E He | urlObj root log Hv _ _ Hs E _];
    rewrite E, Hv; simpl.
  - rewrite andb_false_r. lia.
  - rewrite andb_true_r, count_visits_app. f_equal.
    unfold count_visits. simpl.
    destruct (String.eqb url u); destruct e; simpl in *; try discriminate;
      reflexivity.
  - rewrite andb_true_r, count_visits_app. f_equal.
    change (Visiting url :: log) with ([Visiting url] ++ log)%list.
    rewrite count_visits_app, (silent_count u log Hs).
    unfold count_visits. simpl. now destruct (String.eqb url u).
Qed.

(** The number of pages in the map grows by one or not at all, and the
    queue gets shorter when it does not grow. *)
Lemma step_size (s : state) :
  loop_condition s = true ->
  (Map_size (visited (step w host s)) = Map_size (visited s)
   /\ (List.length (queue (step w host s)) < List.length (queue s)
       \/ exists t, page_writable w t = false))
  \/ Map_size (visited (step w host s)) = S (Map_size (visited s)).
Proof.
  intros Hc.
  destruct (loop_condition_queue s Hc) as (url & rest & Hq & _).
  destruct (step_outcome s url rest Hc Hq) as [Ho _].
  rewrite Hq.
  destruct Ho as [_ E1 E2 _ | e _ _ E1 E2 _ _ | urlObj root log Hv _ _ _ _ Hw].
  - left. rewrite E1, E2. simpl. split; [reflexivity | left; lia].
  - left. rewrite E1, E2. simpl. split; [reflexivity | left; lia].
  - destruct Hw as [[_ (meta & E)] | [Hw E]]; rewrite E.
    + right. now apply Map_size_set_new.
    + left. split; [reflexivity | right; eauto].
Qed.

End CrawlFacts.

(* ================================================================== *)
(** ** Runs of the loop *)

Section RunFacts.
Context `{Platform}.
Variable w : world.
Variable host : string.

Lemma run_step_end (n : nat) (s : state) :
  run w host (S n) s = step w host (run w host n s).
Proof.
  revert s; induction n as [|n IH]; intros s; [reflexivity|].
  change (run w host (S (S n)) s) with (run w host (S n) (step w host s)).
  now rewrite IH.
Qed.

Lemma run_idle (n : nat) (s : state) :
  loop_condition s = false -> run w host n s = s.
Proof.
  intros Hc. induction n as [|n IH]; [reflexivity|].
  simpl. now rewrite step_idle.
Qed.

Lemma run_NoDup (n : nat) (s : state) :
  NoDup (queue s) -> NoDup (queue (run w host n s)).
Proof.
  revert s; induction n as [|n IH]; intros s Hs; [exact Hs|].
  simpl. apply IH. now apply step_NoDup.
Qed.

Lemma crawl_run (n : nat) (s : state) :
  (forall j, j < n -> loop_condition (run w host j s) = true) ->
  loop_condition (run w host n s) = false ->
  crawl w host n s = Some (run w host n s).
Proof.
  revert s; induction n as [|n IH]; intros s Hlt Hn; simpl in *.
  - now rewrite Hn.
  - assert (H0 : loop_condition s = true) by (apply (Hlt 0); lia).
    rewrite H0. apply IH; [|exact Hn].
    intros j Hj. apply (Hlt (S j)). lia.
Qed.

Lemma crawl_first_halt (fuel : nat) (s s' : state) :
  crawl w host fuel s = Some s' ->
  exists n, n <= fuel /\ s' = run w host n s
            /\ loop_condition s' = false
            /\ forall j, j < n -> loop_condition (run w host j s) = true.
Proof.
  revert s; induction fuel as [|fuel IH]; intros s; simpl;
    destruct (loop_condition s) eqn:Hc; try discriminate.
  - intros E. injection E as <-. exists 0. repeat split; auto. intros j Hj. lia.
  - intros E. destruct (IH _ E) as (n & Hn & -> & Hh & Hlt).
    exists (S n). repeat split; auto; [lia|].
    intros [|j] Hj; [exact Hc | apply Hlt; lia].
  - intros E. injection E as <-. exists 0. repeat split; auto; [lia|].
    intros j Hj. lia.
Qed.

Lemma step_size_le (s : state) :
  Map_size (visited s) <= MAX_PAGES ->
  Map_size (visited (step w host s)) <= MAX_PAGES.
Proof.
  intros Hle. destruct (loop_condition s) eqn:Hc.
  - destruct (loop_condition_queue s Hc) as (_ & _ & _ & Hlt).
    destruct (step_size w host s Hc) as [[E _] | E]; rewrite E; lia.
  - now rewrite step_idle.
Qed.

Lemma run_size_le (n : nat) (s : state) :
  Map_size (visited s) <= MAX_PAGES ->
  Map_size (visited (run w host n s)) <= MAX_PAGES.
Proof.
  revert s; induction n as [|n IH]; intros s Hs; [exact Hs|].
  simpl. apply IH. now apply step_size_le.
Qed.

(** With a disk that takes every page the loop comes to a state in which
    its condition fails. *)
Lemma run_halts (s : state) :
  (forall t, page_writable w t = true) ->
  exists n, loop_condition (run w host n s) = false
            /\ forall j, j < n -> loop_condition (run w host j s) = true.
Proof.
  intros Hw.
  assert (G : forall k m s,
            MAX_PAGES - Map_size (visited s) <= k ->
            List.length (queue s) <= m ->
            exists n, loop_condition (run w host n s) = false
                      /\ forall j, j < n -> loop_condition (run w host j s) = true).
  { induction k as [|k IHk]; induction m as [|m IHm]; intros s0 Hk Hm;
      destruct (loop_condition s0) eqn:Hc;
      try (exists 0; split; [exact Hc | intros j Hj; lia]);
      destruct (loop_condition_queue s0 Hc) as (url & rest & Hq & Hlt);
      try lia; try (rewrite Hq in Hm; simpl in Hm; lia).
    destruct (step_size w host s0 Hc) as [[E [Hl | (t & Ht)]] | E].
    - destruct (IHm (step w host s0)) as (n & Hn & Hj); [lia | lia |].
      exists (S n). split; [exact Hn|].
      intros [|j] Hlj; [exact Hc | apply Hj; lia].
    - rewrite Hw in Ht. discriminate.
    - destruct (IHk (List.length (queue (step w host s0))) (step w host s0))
        as (n & Hn & Hj); [lia | lia |].
      exists (S n). split; [exact Hn|].
      intros [|j] Hlj; [exact Hc | apply Hj; lia]. }
  apply (G (MAX_PAGES - Map_size (visited s)) (List.length (queue s))); lia.
Qed.

End RunFacts.

(* ================================================================== *)
(** ** The crawl scheduler *)

(** C9, as the code has it.  At every point of the crawl the queue holds no
    URL twice; a URL is enqueued only while it is not a key of the map; a
    queued URL is a key of the map only when its own page linked to it (it
    was the head of the queue at an earlier iteration, not yet a key, its
    rendered page had an in-scope link to it, and the page was persisted in
    that iteration); and such a URL, once at the head, is dropped without
    being attempted. *)
Theorem frontier_invariant `{Platform} (w : world) (host u : string) (n : nat) :
  let s := run w host n (seeded u) in
  NoDup (queue s)
  /\ (forall v, In v (queue (step w host s)) -> ~ In v (queue s) ->
        Map_has (visited s) v = false)
  /\ (forall v, In v (queue s) -> Map_has (visited s) v = true ->
        exists k, k < n
          /\ hd_error (queue (run w host k (seeded u))) = Some v
          /\ In v (discovered w host (run w host k (seeded u)))
          /\ Map_has (visited (run w host k (seeded u))) v = false
          /\ Map_has (visited (run w host (S k) (seeded u))) v = true)
  /\ (forall v rest, queue s = v :: rest -> Map_has (visited s) v = true ->
        loop_condition s = true ->
        queue (step w host s) = rest
        /\ visited (step w host s) = visited s
        /\ trace (step w host s) = trace s).
Proof.
  cbv zeta.
  assert (Hnd : forall m, NoDup (queue (run w host m (seeded u)))).
  { intros m. apply run_NoDup. simpl. constructor; [intros [] | constructor]. }
  split; [apply Hnd | split; [|split]].
  - intros v Hin Hout.
    destruct (loop_condition (run w host n (seeded u))) eqn:Hc.
    + destruct (step_queue w host _ v Hc Hin) as [Ht | [_ Hv]]; [|exact Hv].
      exfalso. apply Hout.
      destruct (queue (run w host n (seeded u))); [destruct Ht | now right].
    + rewrite step_idle in Hin by exact Hc. contradiction.
  - induction n as [|n IH]; intros v Hin Hv.
    + simpl in Hv. discriminate.
    + rewrite run_step_end in Hin, Hv.
      destruct (loop_condition (run w host n (seeded u))) eqn:Hc.
      2:{ rewrite step_idle in Hin, Hv by exact Hc.
          destruct (IH v Hin Hv) as (k & Hk & R). exists k. split; [lia | exact R]. }
      destruct (step_visited w host _ v Hc Hv) as [Hold | (Hhd & _ & Hnew)].
      * destruct (step_queue w host _ v Hc Hin) as [Ht | [_ Hf]]; [|congruence].
        assert (Hq : In v (queue (run w host n (seeded u)))).
        { destruct (queue (run w host n (seeded u))); [destruct Ht | now right]. }
        destruct (IH v Hq Hold) as (k & Hk & R). exists k. split; [lia | exact R].
      * exists n. split; [lia|]. split; [exact Hhd|].
        rewrite run_step_end. repeat split; auto.
        destruct (step_queue w host _ v Hc Hin) as [Ht | [Hd _]]; [|exact Hd].
        exfalso. specialize (Hnd n).
        destruct (queue (run w host n (seeded u))) as [|x q]; [destruct Ht|].
        simpl in Hhd, Ht. injection Hhd as ->.
        apply NoDup_cons_iff in Hnd as [Hx _]. contradiction.
  - intros v rest Hq Hv Hc.
    destruct (step_outcome w host _ v rest Hc Hq) as [Ho _].
    destruct Ho as [_ E1 E2 E3 | e Hf | urlObj root log Hf]; [auto | congruence..].
Qed.

(** C9 as stated fails: the home page links to itself; after the first
    iteration its URL is a key of the map and is in the queue. *)
Lemma frontier_invariant_counterexample :
  let s := @run reference_platform Sites.self_link Sites.host 1
             (seeded Sites.home_url) in
  queue s = [Sites.home_url] /\ Map_has (visited s) Sites.home_url = true.
Proof. vm_compute. split; reflexivity. Qed.

(** C3, as the code has it.  The loop stops at the first state in which
    the queue is empty or the map holds [MAX_PAGES] pages, and not before;
    only persisted pages are in the map, so skipped pages do not count; in
    such a state no iteration changes anything, whatever is left in the
    queue; the map never holds more than [MAX_PAGES] pages; and when the
    disk takes every page the loop does reach such a state. *)
Theorem crawl_halts `{Platform} (w : world) (host : string) (s0 : state) :
  (forall fuel s, crawl w host fuel s0 = Some s ->
     (queue s = [] \/ MAX_PAGES <= Map_size (visited s))
     /\ (forall m, run w host m s = s)
     /\ (Map_size (visited s0) <= MAX_PAGES -> Map_size (visited s) <= MAX_PAGES)
     /\ exists n, s = run w host n s0
          /\ forall j, j < n ->
               queue (run w host j s0) <> []
               /\ Map_size (visited (run w host j s0)) < MAX_PAGES)
  /\ ((forall t, page_writable w t = true) ->
      exists fuel s, crawl w host fuel s0 = Some s).
Proof.
  split.
  - intros fuel s E.
    destruct (crawl_first_halt w host fuel s0 s E) as (n & _ & -> & Hh & Hlt).
    split; [|split; [|split]].
    + unfold loop_condition in Hh.
      destruct (queue (run w host n s0)); [now left | right].
      now apply Nat.ltb_ge in Hh.
    + intros m. now apply run_idle.
    + apply run_size_le.
    + exists n. split; [reflexivity|]. intros j Hj.
      destruct (loop_condition_queue _ (Hlt j Hj)) as (url & rest & Hq & Hs).
      split; [now rewrite Hq | exact Hs].
  - intros Hw. destruct (run_halts w host s0 Hw) as (n & Hn & Hlt).
    exists n, (run w host n s0). now apply crawl_run.
Qed.

Lemma crawl_halts_witness :
  (exists fuel s,
     @crawl reference_platform Sites.two_pages Sites.host fuel
       (seeded Sites.home_url) = Some s)
  /\ forall s,
       @crawl reference_platform (Sites.chain 160) Sites.host 200
         (seeded (Sites.numbered 1)) = Some s ->
       (queue s = [] \/ MAX_PAGES <= Map_size (visited s))
       /\ forall m, @run reference_platform (Sites.chain 160) Sites.host m s = s.
Proof.
  split.
  - destruct (@crawl_halts reference_platform Sites.two_pages Sites.host
                (seeded Sites.home_url)) as [_ Hterm].
    apply Hterm. intros t. reflexivity.
  - intros s E.
    destruct (@crawl_halts reference_platform (Sites.chain 160) Sites.host
                (seeded (Sites.numbered 1))) as [Hstop _].
    destruct (Hstop 200 s E) as (Hh & Hidle & _). now split.
Defined.

(** A run the cap ends: of 160 pages in a row 150 are attempted and
    persisted, and the 151st stays in the queue. *)
Lemma cap_ends_chain :
  option_map
    (fun s => (pages_attempted (trace s), Map_size (visited s), queue s))
    (@crawl reference_platform (Sites.chain 160) Sites.host 200
       (seeded (Sites.numbered 1)))
  = Some (150, 150, [Sites.numbered 151]).
Proof. vm_compute. reflexivity. Qed.

Lemma stuck_step (s : state) :
  visited s = [] -> queue s = [Sites.home_url] ->
  let s' := @step reference_platform Sites.read_only_disk Sites.host s in
  visited s' = [] /\ queue s' = [Sites.home_url].
Proof.
  destruct s as [v q si a tr ti]. simpl. intros -> ->.
  vm_compute. split; reflexivity.
Qed.

Lemma stuck_forever (fuel : nat) :
  forall s, visited s = [] -> queue s = [Sites.home_url] ->
  @crawl reference_platform Sites.read_only_disk Sites.host fuel s = None.
Proof.
  induction fuel as [|fuel IH]; intros s Hv Hq; simpl;
    unfold loop_condition; rewrite Hq, Hv; simpl; [reflexivity|].
  destruct (stuck_step s Hv Hq) as [Hv' Hq']. now apply IH.
Qed.

(** C3 as stated fails.  A seed page with links to 151 pages that do not
    answer: the loop attempts 152 pages, more than the cap of 150, and
    stops because the queue is empty, with one page in the map.  And on a
    disk that refuses every write a page that links to itself is attempted
    again and again: no amount of fuel ends the loop. *)
Lemma crawl_halts_counterexample :
  option_map
    (fun s => (pages_attempted (trace s), Map_size (visited s), queue s))
    (@crawl reference_platform (Sites.dead_links 151) Sites.host 200
       (seeded Sites.home_url))
  = Some (152, 1, [])
  /\ MAX_PAGES = 150
  /\ (forall fuel,
        @crawl reference_platform Sites.read_only_disk Sites.host fuel
          (seeded Sites.home_url) = None).
Proof.
  split; [vm_compute; reflexivity | split; [reflexivity|]].
  intros fuel. now apply stuck_forever.
Qed.

(** A URL that was the head of the queue and is not a key of the map after
    its iteration is not retried as long as no rendered page, its own
    included, has an in-scope link to it. *)
Lemma not_rediscovered_not_retried `{Platform} (w : world) (host : string)
    (s : state) (u : string) (rest : list string) (n : nat) :
  queue s = u :: rest ->
  NoDup (queue s) ->
  loop_condition s = true ->
  Map_has (visited s) u = false ->
  Map_has (visited (step w host s)) u = false ->
  (forall k, k <= n -> ~ In u (discovered w host (run w host k s))) ->
  count_visits u (trace (run w host (S n) s)) = S (count_visits u (trace s))
  /\ ~ In u (queue (run w host (S n) s))
  /\ Map_has (visited (run w host (S n) s)) u = false.
Proof.
  intros Hq Hnd Hc Hv Hskip Hno.
  assert (Hfirst : count_visits u (trace (step w host s))
                   = S (count_visits u (trace s))).
  { rewrite step_visits by exact Hc.
    rewrite Hq, String.eqb_refl, Hv. simpl. lia. }
  rewrite <- Hfirst. clear Hfirst.
  induction n as [|n IH].
  - simpl. split; [reflexivity | split; [|exact Hskip]].
    intros Hin. destruct (step_queue w host s u Hc Hin) as [Ht | [Hd _]].
    + rewrite Hq in Ht, Hnd. simpl in Ht.
      apply NoDup_cons_iff in Hnd as [Hx _]. contradiction.
    + apply (Hno 0); [lia | exact Hd].
  - destruct IH as (IHc & IHq & IHv); [intros k Hk; apply Hno; lia|].
    rewrite run_step_end.
    destruct (loop_condition (run w host (S n) s)) eqn:Hc'.
    2:{ rewrite step_idle by exact Hc'. auto. }
    split; [|split].
    + rewrite step_visits by exact Hc'. rewrite IHc.
      destruct (queue (run w host (S n) s)) as [|x q] eqn:Hq'; [lia|].
      destruct (String.eqb_spec x u) as [-> | Hx]; simpl; [|lia].
      exfalso. apply IHq. now left.
    + intros Hin. destruct (step_queue w host _ u Hc' Hin) as [Ht | [Hd _]].
      * apply IHq. destruct (queue (run w host (S n) s)); [destruct Ht | now right].
      * apply (Hno (S n)); [lia | exact Hd].
    + destruct (Map_has (visited (step w host (run w host (S n) s))) u) eqn:Hm;
        [|reflexivity].
      destruct (step_visited w host _ u Hc' Hm) as [Hold | (Hhd & _)];
        [congruence|].
      exfalso. apply IHq.
      destruct (queue (run w host (S n) s)); [discriminate|].
      simpl in Hhd. injection Hhd as ->. now left.
Qed.

(** C2, as the code has it.  Take a URL whose processing ends skipped:
    either before its links are looked at (no response, a non-success
    status, a navigation error), or by a failure after its page was
    rendered, the page having no in-scope link to itself.  It is not a key
    of the map and it is out of the queue; and as long as no page rendered
    afterwards has an in-scope link to it, it stays out of the queue, is not
    attempted again and does not become a key.  Nothing records the
    failure, so a later link to it does bring it back. *)
Theorem skipped_not_retried `{Platform} (w : world) (host : string)
    (s : state) (u : string) (rest : list string) (n : nat) :
  queue s = u :: rest ->
  NoDup (queue s) ->
  loop_condition s = true ->
  Map_has (visited s) u = false ->
  rendered w s = None
  \/ (Map_has (visited (step w host s)) u = false
      /\ ~ In u (discovered w host s)) ->
  (forall k, 1 <= k -> k <= n ->
     ~ In u (discovered w host (run w host k s))) ->
  count_visits u (trace (run w host (S n) s)) = S (count_visits u (trace s))
  /\ ~ In u (queue (run w host (S n) s))
  /\ Map_has (visited (run w host (S n) s)) u = false.
Proof.
  intros Hq Hnd Hc Hv Hskip Hlater.
  assert (Hown : Map_has (visited (step w host s)) u = false
                 /\ ~ In u (discovered w host s)).
  { destruct Hskip as [Hr | Hown]; [|exact Hown]. split.
    - destruct (step_outcome w host s u rest Hc Hq) as [Ho _].
      destruct Ho as [_ E _ _ | e _ _ E _ _ _ | urlObj root log _ Hr' _ _ _ _];
        [now rewrite E | now rewrite E | congruence].
    - unfold discovered. rewrite Hr. intros []. }
  destruct Hown as [Hskipped Hself].
  apply (not_rediscovered_not_retried w host s u rest n); auto.
  intros [|k] Hk; [exact Hself | apply Hlater; lia].
Qed.

Lemma skipped_not_retried_witness :
  count_visits Sites.second_url
    (trace (@run reference_platform Sites.broken_quiet Sites.host 3 before_skip))
  = S (count_visits Sites.second_url (trace before_skip))
  /\ ~ In Sites.second_url
         (queue (@run reference_platform Sites.broken_quiet Sites.host 3 before_skip))
  /\ Map_has
       (visited (@run reference_platform Sites.broken_quiet Sites.host 3 before_skip))
       Sites.second_url = false.
Proof.
  apply (@skipped_not_retried reference_platform Sites.broken_quiet Sites.host
           before_skip Sites.second_url [Sites.third_url] 2).
  - vm_compute. reflexivity.
  - replace (queue before_skip) with [Sites.second_url; Sites.third_url]
      by (vm_compute; reflexivity).
    constructor.
    + intros [E | []]. vm_compute in E. discriminate E.
    + constructor; [intros [] | constructor].
  - vm_compute. reflexivity.
  - vm_compute. reflexivity.
  - left. vm_compute. reflexivity.
  - intros k H1 H2.
    assert (Hk : k = 1 \/ k = 2) by lia.
    destruct Hk as [-> | ->]; vm_compute; intros Hin;
      repeat (destruct Hin as [Hin | Hin]; [discriminate Hin|]); exact Hin.
Defined.

(** C2 as stated fails: the second page answers with status 500 and is
    skipped; the third page, visited later, links to it, and it is fetched
    a second time. *)
Lemma skipped_not_retried_counterexample :
  option_map
    (fun s => (trace s, Map_has (visited s) Sites.second_url))
    (@crawl reference_platform Sites.broken_second Sites.host 10
       (seeded Sites.home_url))
  = Some ([Visiting Sites.home_url; PageSaved "home.html";
           Visiting Sites.second_url; SkippedStatus;
           Visiting Sites.third_url; PageSaved "third.html";
           Visiting Sites.second_url; SkippedStatus],
          false).
Proof. vm_compute. reflexivity. Qed.

(* ================================================================== *)
(** ** The link fix pass *)

(** C1 at the two-page site.  The home page links to the second page with
    the text [Read more]; the second page is saved as [second-page.html].
    The fix pass leaves the home page as the crawl saved it: its link still
    points at the guess [read-more.html], and the name of the second page
    occurs nowhere in it. *)
Theorem fixup_keeps_guess :
  exists s fs html,
    @main reference_platform Sites.two_pages Sites.home_url 10 = Some (s, fs)
    /\ Map_get (visited s) Sites.second_url
       = Some (mkMeta "Second Page" "second-page.html")
    /\ Map_get (visited s) Sites.home_url = Some (mkMeta "Home" "home.html")
    /\ file_read (site s) "home.html" = Some html
    /\ file_read fs "home.html" = Some html
    /\ contains ("<a href=" ++ dquote ++ "read-more.html" ++ dquote
                 ++ ">Read more</a>") html = true
    /\ contains "second-page.html" html = false.
Proof.
  destruct (@main reference_platform Sites.two_pages Sites.home_url 10)
    as [[s fs]|] eqn:E; [|vm_compute in E; discriminate E].
  vm_compute in E. injection E as <- <-.
  eexists _, _, _. split; [reflexivity|].
  split; [reflexivity|]. split; [reflexivity|].
  split; [reflexivity|]. split; [reflexivity|].
  split; vm_compute; reflexivity.
Qed.

(* ================================================================== *)
(** ** The slug allocator *)

Lemma nat_to_string_inj (a b : nat) : nat_to_string a = nat_to_string b -> a = b.
Proof.
  unfold nat_to_string. intros E.
  apply Unsigned.to_uint_inj.
  assert (E' : Some (Nat.to_uint a) = Some (Nat.to_uint b)).
  { rewrite <- !NilEmpty.usu. now rewrite E. }
  now injection E'.
Qed.

Lemma uniqueSlug_loop_used (fuel : nat) (used : list string) (base : string) :
  forall slug i,
    In (uniqueSlug_loop fuel used base slug i) used ->
    In slug used
    /\ forall j, j < fuel -> In (base ++ "-" ++ nat_to_string (i + j)) used.
Proof.
  induction fuel as [|fuel IH]; intros slug i; simpl.
  - intros Hin. split; [exact Hin | intros j Hj; lia].
  - destruct (includes used slug) eqn:Hs.
    + intros Hin. apply IH in Hin as [H0 Hj].
      split; [now apply includes_true|].
      intros [|j] Hlt.
      * now rewrite Nat.add_0_r.
      * replace (i + S j) with (S i + j) by lia. apply Hj. lia.
    + intros Hin. apply includes_false in Hs. contradiction.
Qed.

(** The loop of [uniqueSlug] ends within its fuel: the name it returns is
    not one of the used names. *)
Lemma uniqueSlug_loop_free (used : list string) (base : string) :
  ~ In (uniqueSlug_loop (S (List.length used)) used base base 2) used.
Proof.
  intros Hin. apply uniqueSlug_loop_used in Hin as [_ Hall].
  set (cands := map (fun j => base ++ "-" ++ nat_to_string (2 + j))
                    (seq 0 (S (List.length used)))).
  assert (Hnd : NoDup cands).
  { apply NoDup_map_NoDup_ForallPairs; [|apply seq_NoDup].
    intros a b _ _ E. apply append_inv_head in E. simpl in E.
    injection E as E. apply nat_to_string_inj in E. lia. }
  assert (Hincl : incl cands used).
  { intros c Hc. apply in_map_iff in Hc as (j & <- & Hj).
    apply in_seq in Hj. apply Hall. lia. }
  pose proof (NoDup_incl_length Hnd Hincl) as Hlen.
  unfold cands in Hlen. rewrite length_map, length_seq in Hlen. lia.
Qed.

(** A file name without a backslash is taken as used as it is, suffix
    included. *)
Lemma strip_html_suffix_plain (f : string) :
  string_forallb (fun c => negb (Ascii.eqb c backslash)) f = true ->
  strip_html_suffix f = f.
Proof.
  intros Hf. unfold strip_html_suffix.
  destruct (drop (String.length f - 6) f) as [|b [|c rest]] eqn:Hd; try reflexivity.
  destruct (Ascii.eqb b backslash) eqn:Hb;
    [|now rewrite andb_false_r].
  exfalso.
  rewrite <- (slice0_drop (String.length f - 6) f), forallb_append, Hd in Hf.
  apply andb_true_iff in Hf as [_ Hf]. simpl in Hf. rewrite Hb in Hf.
  discriminate.
Qed.

(** With file names of the form slug, [.html] and no backslash, and a base
    without a dot, [uniqueSlug] returns the base whatever the map holds. *)
Lemma uniqueSlug_never_numbers `{Platform} (title : string) (map : Visited) :
  (forall v, In v (Map_values map) ->
     string_forallb (fun c => negb (Ascii.eqb c backslash)) (filename v) = true
     /\ exists slug, filename v = slug ++ ".html") ->
  string_forallb (fun c => negb (Ascii.eqb c "."))
    (slice0 60 (or_else (slugify title) "page")) = true ->
  uniqueSlug title map = slice0 60 (or_else (slugify title) "page").
Proof.
  intros Hmap Hbase. unfold uniqueSlug. cbv zeta.
  remember (slice0 60 (or_else (slugify title) "page")) as base eqn:Eb.
  clear Eb. simpl.
  destruct (includes (used_slugs map) base) eqn:Hin; [|reflexivity].
  exfalso. apply includes_true in Hin. unfold used_slugs in Hin.
  apply in_map_iff in Hin as (v & Ev & Hv).
  destruct (Hmap v Hv) as (Hplain & slug & Ef).
  rewrite strip_html_suffix_plain in Ev by exact Hplain.
  rewrite <- Ev, Ef, forallb_append in Hbase.
  apply andb_true_iff in Hbase as [_ Hbase]. discriminate Hbase.
Qed.

(** C4 at two pages with the title [Notes].  The name the first page was
    saved under is kept as [notes.html] in the used names, so the second
    call returns [notes] again instead of [notes-2], and both pages are
    recorded, and written, as [notes.html]. *)
Theorem same_title_same_filename :
  @uniqueSlug reference_platform "Notes" [] = "notes"
  /\ used_slugs [(Sites.home_url, mkMeta "Notes" "notes.html")] = ["notes.html"]
  /\ @uniqueSlug reference_platform "Notes"
       [(Sites.home_url, mkMeta "Notes" "notes.html")] = "notes"
  /\ option_map (fun r => (visited (fst r), map fst (snd r)))
       (@main reference_platform Sites.same_titles Sites.home_url 10)
     = Some ([(Sites.home_url, mkMeta "Notes" "notes.html");
              (Sites.second_url, mkMeta "Notes" "notes.html")],
             ["notes.html"]).
Proof. repeat split; vm_compute; reflexivity. Qed.

(* ================================================================== *)
(** * Further properties *)

(** ** The slug allocator, continued *)

Lemma string_length_append (a b : string) :
  String.length (a ++ b) = String.length a + String.length b.
Proof. induction a as [|x a IH]; simpl; [reflexivity | now rewrite IH]. Qed.

Lemma uniqueSlug_loop_first (used : list string) (base : string) :
  forall fuel k,
    exists j,
      k <= j /\ j <= k + fuel
      /\ uniqueSlug_loop fuel used base (slug_candidate base k) (k + 2)
         = slug_candidate base j
      /\ forall m, k <= m -> m < j -> In (slug_candidate base m) used.
Proof.
  induction fuel as [|fuel IH]; intros k; cbn [uniqueSlug_loop].
  - exists k. split; [lia | split; [lia | split; [reflexivity | intros; lia]]].
  - destruct (includes used (slug_candidate base k)) eqn:Hk.
    + destruct (IH (S k)) as (j & Hj1 & Hj2 & E & Hall).
      assert (Ec : slug_candidate base (S k) = base ++ "-" ++ nat_to_string (k + 2)).
      { unfold slug_candidate. now replace (k + 2) with (S (S k)) by lia. }
      rewrite Ec in E. replace (S k + 2) with (S (k + 2)) in E by lia.
      exists j. split; [lia | split; [lia | split; [exact E|]]].
      intros m H1 H2. destruct (Nat.eq_dec m k) as [-> | Hne].
      * now apply includes_true.
      * apply Hall; lia.
    + exists k. split; [lia | split; [lia | split; [reflexivity | intros; lia]]].
Qed.

(** [uniqueSlug] returns the first of the names base, base-2, base-3, ...
    that is not among the used names: the names before it are all used,
    the one returned is not, and its number is at most the number of used
    names plus one. *)
Theorem uniqueSlug_first_free `{Platform} (title : string) (map : Visited) :
  let base := slice0 60 (or_else (slugify title) "page") in
  exists k,
    uniqueSlug title map = slug_candidate base k
    /\ k <= List.length (used_slugs map)
    /\ includes (used_slugs map) (uniqueSlug title map) = false
    /\ forall m, m < k -> includes (used_slugs map) (slug_candidate base m) = true.
Proof.
  cbv zeta. unfold uniqueSlug. cbv zeta.
  remember (slice0 60 (or_else (slugify title) "page")) as base eqn:Eb. clear Eb.
  destruct (uniqueSlug_loop_first (used_slugs map) base
              (S (List.length (used_slugs map))) 0) as (j & _ & Hj & E & Hall).
  change (slug_candidate base 0) with base in E. change (0 + 2) with 2 in E.
  assert (Hfree : includes (used_slugs map)
                    (uniqueSlug_loop (S (List.length (used_slugs map)))
                       (used_slugs map) base base 2) = false).
  { apply includes_false. apply uniqueSlug_loop_free. }
  exists j. split; [exact E | split; [|split; [exact Hfree|]]].
  - destruct (Nat.le_gt_cases j (List.length (used_slugs map))) as [Hle | Hgt];
      [exact Hle | exfalso].
    assert (Ej : j = S (List.length (used_slugs map))) by lia.
    set (cands := List.map (slug_candidate base) (seq 0 j)).
    assert (Hnd : NoDup cands).
    { apply NoDup_map_NoDup_ForallPairs; [|apply seq_NoDup].
      intros a b _ _ Eab. destruct a as [|a], b as [|b]; simpl in Eab.
      - reflexivity.
      - exfalso. apply (f_equal String.length) in Eab.
        rewrite string_length_append in Eab. simpl in Eab. lia.
      - exfalso. apply (f_equal String.length) in Eab.
        rewrite string_length_append in Eab. simpl in Eab. lia.
      - apply append_inv_head in Eab. injection Eab as Eab.
        apply nat_to_string_inj in Eab. lia. }
    assert (Hincl : incl cands (used_slugs map)).
    { intros c Hc. apply in_map_iff in Hc as (m & <- & Hm).
      apply in_seq in Hm. apply Hall; lia. }
    pose proof (NoDup_incl_length Hnd Hincl) as Hlen.
    unfold cands in Hlen. rewrite length_map, length_seq in Hlen. lia.
  - intros m Hm. apply includes_true. apply Hall; lia.
Qed.

(** ** Titles and guessed file names *)

Lemma rev_onto_append (s acc : string) :
  string_rev_onto s acc = string_rev s ++ acc.
Proof.
  unfold string_rev. revert acc. induction s as [|c s IH]; intros acc; simpl;
    [reflexivity|].
  rewrite (IH (String c "")), (IH (String c acc)), append_assoc. reflexivity.
Qed.

Lemma string_rev_cons (c : ascii) (s : string) :
  string_rev (String c s) = string_rev s ++ String c "".
Proof. unfold string_rev at 1. simpl. apply rev_onto_append. Qed.

Lemma string_rev_snoc (c : ascii) (s : string) :
  string_rev (s ++ String c "") = String c (string_rev s).
Proof.
  induction s as [|d s IH]; [reflexivity|].
  simpl. now rewrite !string_rev_cons, IH.
Qed.

Lemma string_rev_involutive (s : string) : string_rev (string_rev s) = s.
Proof.
  induction s as [|c s IH]; [reflexivity|].
  now rewrite string_rev_cons, string_rev_snoc, IH.
Qed.

Lemma append_nil_r (s : string) : s ++ "" = s.
Proof. induction s as [|c s IH]; simpl; [reflexivity | now rewrite IH]. Qed.

Lemma string_rev_append (a b : string) :
  string_rev (a ++ b) = string_rev b ++ string_rev a.
Proof.
  induction a as [|c a IH]; simpl.
  - now rewrite append_nil_r.
  - now rewrite !string_rev_cons, IH, append_assoc.
Qed.

Lemma string_rev_length (s : string) :
  String.length (string_rev s) = String.length s.
Proof.
  induction s as [|c s IH]; [reflexivity|].
  rewrite string_rev_cons, string_length_append, IH. simpl. lia.
Qed.

Lemma slice0_append_exact (a b : string) :
  slice0 (String.length a) (a ++ b) = a.
Proof. induction a as [|c a IH]; simpl; [now destruct b | now rewrite IH]. Qed.

Lemma starts_with_split (p s : string) :
  starts_with p s = true -> s = p ++ drop (String.length p) s.
Proof.
  revert s. induction p as [|a p IH]; intros [|b s]; simpl;
    try reflexivity; try discriminate.
  intros E. apply andb_true_iff in E as [Eab E].
  apply Ascii.eqb_eq in Eab as ->. now rewrite <- (IH s E).
Qed.

Lemma starts_with_append (p s : string) : starts_with p (p ++ s) = true.
Proof.
  induction p as [|a p IH]; simpl; [reflexivity|].
  now rewrite Ascii.eqb_refl, IH.
Qed.

Lemma drop_append (p s : string) : drop (String.length p) (p ++ s) = s.
Proof. induction p as [|a p IH]; simpl; [reflexivity | exact IH]. Qed.

Lemma starts_with_more (p s b : string) :
  starts_with p s = true -> starts_with p (s ++ b) = true.
Proof.
  intros E. rewrite (starts_with_split p s E), append_assoc.
  apply starts_with_append.
Qed.

(** *** Taking members of a table off the start *)

Lemma strip_one_split (table : list string) (s r : string) :
  strip_one table s = Some r -> exists w, In w table /\ s = w ++ r.
Proof.
  induction table as [|w table IH]; simpl; [discriminate|].
  destruct (starts_with w s) eqn:E.
  - intros [= <-]. exists w. split; [now left | now apply starts_with_split].
  - intros Hr. destruct (IH Hr) as (w' & Hw & Es). exists w'. split; [now right | exact Es].
Qed.

Lemma strip_one_None (table : list string) (s : string) :
  strip_one table s = None
  <-> existsb (fun w => starts_with w s) table = false.
Proof.
  induction table as [|w table IH]; simpl; [tauto|].
  destruct (starts_with w s); simpl; [split; discriminate | exact IH].
Qed.

Lemma strip_one_shorter (table : list string) (s r : string) :
  forallb (fun w => negb (String.eqb w "")) table = true ->
  strip_one table s = Some r -> String.length r < String.length s.
Proof.
  intros Hne Hr. destruct (strip_one_split table s r Hr) as (w & Hw & ->).
  rewrite forallb_forall in Hne. specialize (Hne w Hw).
  rewrite string_length_append. destruct w; [discriminate | simpl; lia].
Qed.

Lemma strip_all_chain (table : list string) (fuel : nat) (s : string) :
  exists a, chain table a /\ s = a ++ strip_all table fuel s.
Proof.
  revert s. induction fuel as [|fuel IH]; intros s; simpl.
  - exists "". split; [constructor | reflexivity].
  - destruct (strip_one table s) as [r|] eqn:E.
    + destruct (strip_one_split table s r E) as (w & Hw & ->).
      destruct (IH r) as (a & Ha & Er).
      exists (w ++ a). split; [now constructor|].
      now rewrite append_assoc, <- Er.
    + exists "". split; [constructor | reflexivity].
Qed.

Lemma strip_all_done (table : list string) (fuel : nat) (s : string) :
  forallb (fun w => negb (String.eqb w "")) table = true ->
  String.length s <= fuel ->
  strip_one table (strip_all table fuel s) = None.
Proof.
  intros Hne. revert s. induction fuel as [|fuel IH]; intros s Hl; simpl.
  - destruct (strip_one table s) as [r|] eqn:E; [|reflexivity].
    pose proof (strip_one_shorter table s r Hne E). lia.
  - destruct (strip_one table s) as [r|] eqn:E; [|exact E].
    apply IH. pose proof (strip_one_shorter table s r Hne E). lia.
Qed.

Lemma strip_all_fixed (table : list string) (fuel : nat) (s : string) :
  strip_one table s = None -> strip_all table fuel s = s.
Proof. intros E. destruct fuel; simpl; [reflexivity | now rewrite E]. Qed.

Lemma strip_all_fuel (table : list string) (f1 f2 : nat) (s : string) :
  forallb (fun w => negb (String.eqb w "")) table = true ->
  String.length s <= f1 -> String.length s <= f2 ->
  strip_all table f1 s = strip_all table f2 s.
Proof.
  intros Hne. revert f2 s. induction f1 as [|f1 IH]; intros f2 s H1 H2.
  - destruct s; [|simpl in H1; lia].
    destruct f2; simpl; [reflexivity|].
    destruct (strip_one table "") as [r|] eqn:E; [|reflexivity].
    pose proof (strip_one_shorter table "" r Hne E) as Hr. simpl in Hr. lia.
  - destruct f2 as [|f2].
    + destruct s; [|simpl in H2; lia]. simpl.
      destruct (strip_one table "") as [r|] eqn:E; [|reflexivity].
      pose proof (strip_one_shorter table "" r Hne E) as Hr. simpl in Hr. lia.
    + simpl. destruct (strip_one table s) as [r|] eqn:E; [|reflexivity].
      pose proof (strip_one_shorter table s r Hne E).
      apply IH; lia.
Qed.

Lemma chain_app (table : list string) (a b : string) :
  chain table a -> chain table b -> chain table (a ++ b).
Proof.
  intros Ha Hb. induction Ha as [|w a Hw Ha IH]; [exact Hb|].
  rewrite append_assoc. now constructor.
Qed.

Lemma chain_rev (table : list string) (a : string) :
  chain (map string_rev table) a -> chain table (string_rev a).
Proof.
  induction 1 as [|w a Hw Ha IH]; [constructor|].
  rewrite string_rev_append. apply chain_app; [exact IH|].
  apply in_map_iff in Hw as (v & <- & Hv).
  rewrite string_rev_involutive, <- (append_nil_r v).
  constructor; [exact Hv | constructor].
Qed.

(** *** [trim] *)

Lemma white_space_nonempty :
  forallb (fun w => negb (String.eqb w "")) js_white_space = true.
Proof. reflexivity. Qed.

Lemma white_space_rev_nonempty :
  forallb (fun w => negb (String.eqb w "")) (map string_rev js_white_space) = true.
Proof. reflexivity. Qed.

Lemma strip_one_rev_None (s : string) :
  strip_one (map string_rev js_white_space) (string_rev s) = None
  <-> last_is_space s = false.
Proof.
  unfold last_is_space, ends_with.
  induction js_white_space as [|w table IH]; simpl; [tauto|].
  destruct (starts_with (string_rev w) (string_rev s)); simpl;
    [split; discriminate | exact IH].
Qed.

Lemma trimStart_split (s : string) :
  exists a, white a /\ s = a ++ trimStart s.
Proof. apply strip_all_chain. Qed.

Lemma trimEnd_split (s : string) :
  exists b, white b /\ s = trimEnd s ++ b.
Proof.
  destruct (strip_all_chain (map string_rev js_white_space) (String.length s)
              (string_rev s)) as (a & Ha & E).
  exists (string_rev a). split; [now apply chain_rev|].
  unfold trimEnd. rewrite <- string_rev_append, <- E.
  now rewrite string_rev_involutive.
Qed.

Lemma trim_split (s : string) :
  exists a b, s = a ++ trim s ++ b /\ white a /\ white b.
Proof.
  destruct (trimStart_split s) as (a & Ha & Es).
  destruct (trimEnd_split (trimStart s)) as (b & Hb & Et).
  exists a, b. split; [|split; assumption].
  unfold trim. now rewrite <- Et.
Qed.

Lemma trimStart_first (s : string) : first_is_space (trimStart s) = false.
Proof.
  apply strip_one_None, strip_all_done; [exact white_space_nonempty | lia].
Qed.

Lemma trimEnd_last (s : string) : last_is_space (trimEnd s) = false.
Proof.
  apply strip_one_rev_None. unfold trimEnd. rewrite string_rev_involutive.
  apply strip_all_done; [exact white_space_rev_nonempty|].
  rewrite string_rev_length. lia.
Qed.

Lemma first_is_space_prefix (p b : string) :
  first_is_space (p ++ b) = false -> first_is_space p = false.
Proof.
  unfold first_is_space. intros E.
  induction js_white_space as [|w table IH]; simpl in *; [reflexivity|].
  apply orb_false_iff in E as [Ew E]. rewrite (IH E), orb_false_r.
  destruct (starts_with w p) eqn:Ep; [|reflexivity].
  now rewrite (starts_with_more w p b Ep) in Ew.
Qed.

Lemma trim_trimmed (s : string) : trimmed (trim s) = true.
Proof.
  unfold trimmed, trim. rewrite trimEnd_last.
  destruct (trimEnd_split (trimStart s)) as (b & _ & E).
  pose proof (trimStart_first s) as Hf. rewrite E in Hf.
  now rewrite (first_is_space_prefix _ _ Hf).
Qed.

Lemma trimStart_fixed (s : string) : first_is_space s = false -> trimStart s = s.
Proof. intros E. apply strip_all_fixed, strip_one_None, E. Qed.

Lemma trimEnd_fixed (s : string) : last_is_space s = false -> trimEnd s = s.
Proof.
  intros E. unfold trimEnd.
  rewrite strip_all_fixed by now apply strip_one_rev_None.
  apply string_rev_involutive.
Qed.

Lemma trim_fixed (s : string) : trimmed s = true -> trim s = s.
Proof.
  unfold trimmed. intros E. apply andb_true_iff in E as [Ef El].
  apply negb_true_iff in Ef, El.
  unfold trim. rewrite (trimStart_fixed s Ef). now apply trimEnd_fixed.
Qed.

(** No white-space character is the start of another. *)
Lemma strip_one_member (w r : string) :
  In w js_white_space -> strip_one js_white_space (w ++ r) = Some r.
Proof.
  intros Hw. unfold js_white_space in Hw. simpl in Hw.
  repeat (destruct Hw as [<- | Hw]; [reflexivity|]). destruct Hw.
Qed.

Lemma trimStart_white (a s : string) : white a -> trimStart (a ++ s) = trimStart s.
Proof.
  induction 1 as [|w a Hw Ha IH]; [reflexivity|].
  rewrite <- IH, append_assoc. unfold trimStart at 1.
  pose proof white_space_nonempty as Hne.
  assert (Hl : String.length (a ++ s) < String.length (w ++ a ++ s)).
  { apply (strip_one_shorter js_white_space); [exact Hne|].
    now apply strip_one_member. }
  destruct (String.length (w ++ a ++ s)) as [|n] eqn:En; [lia|].
  cbn [strip_all]. rewrite (strip_one_member w (a ++ s) Hw).
  apply strip_all_fuel; [exact Hne | lia | lia].
Qed.

Lemma trim_white (a : string) : white a -> trim a = "".
Proof.
  intros Ha. unfold trim.
  rewrite <- (append_nil_r a), (trimStart_white a "" Ha). reflexivity.
Qed.

(** *** The suffix of the title *)

(** A character that is in no white-space character after its first byte
    does not complete one. *)
Lemma starts_with_completed (c : ascii) (w s b : string) :
  string_forallb (fun d => negb (Ascii.eqb d c)) w = true ->
  starts_with w s = false ->
  starts_with w (s ++ String c b) = false.
Proof.
  revert s. induction w as [|a w IH]; intros s Hw E; [discriminate E|].
  simpl in Hw. apply andb_true_iff in Hw as [Ha Hw].
  destruct s as [|d s]; simpl in *.
  - apply negb_true_iff in Ha. now rewrite Ha.
  - destruct (Ascii.eqb a d); [|reflexivity]. simpl in *. now apply IH.
Qed.

Lemma starts_with_before (c : ascii) (w s b : string) :
  match w with
  | "" => false
  | String _ w' => string_forallb (fun d => negb (Ascii.eqb d c)) w'
  end = true ->
  s <> "" ->
  starts_with w (s ++ String c b) = starts_with w s.
Proof.
  intros Hw Hs. destruct (starts_with w s) eqn:E.
  - now apply starts_with_more.
  - destruct w as [|a w]; [discriminate Hw|].
    destruct s as [|d s]; [congruence|]. simpl in *.
    destruct (Ascii.eqb a d); [|reflexivity]. simpl in *.
    now apply starts_with_completed.
Qed.

Lemma strip_one_before (c : ascii) (table : list string) (s b : string) :
  forallb (fun w => match w with
                    | "" => false
                    | String _ w' =>
                        string_forallb (fun d => negb (Ascii.eqb d c)) w'
                    end) table = true ->
  s <> "" ->
  strip_one table (s ++ String c b)
  = option_map (fun r => r ++ String c b) (strip_one table s).
Proof.
  intros Ht Hs. induction table as [|w table IH]; simpl; [reflexivity|].
  simpl in Ht. apply andb_true_iff in Ht as [Hw Ht].
  rewrite (starts_with_before c w s b Hw Hs).
  destruct (starts_with w s) eqn:E; [|now apply IH].
  simpl. f_equal.
  rewrite (starts_with_split w s E) at 1.
  now rewrite append_assoc, drop_append.
Qed.

Lemma strip_all_before (c : ascii) (table : list string) (b : string) :
  forallb (fun w => match w with
                    | "" => false
                    | String _ w' =>
                        string_forallb (fun d => negb (Ascii.eqb d c)) w'
                    end) table = true ->
  forall f1 f2 s,
    String.length s <= f1 -> f1 <= f2 ->
    strip_all table f1 s <> "" ->
    strip_all table f2 (s ++ String c b) = strip_all table f1 s ++ String c b.
Proof.
  intros Ht.
  assert (Hne : forallb (fun w => negb (String.eqb w "")) table = true).
  { rewrite forallb_forall in *. intros w Hw. specialize (Ht w Hw).
    now destruct w. }
  induction f1 as [|f1 IH]; intros f2 s Hl Hf Hs.
  - destruct s; [now contradiction Hs | simpl in Hl; lia].
  - assert (Hs0 : s <> "").
    { intros ->. apply Hs. simpl.
      destruct (strip_one table "") as [r|] eqn:E; [|reflexivity].
      pose proof (strip_one_shorter table "" r Hne E) as Hr. simpl in Hr. lia. }
    simpl in Hs |- *.
    destruct f2 as [|f2]; [lia|]. simpl.
    rewrite (strip_one_before c table s b Ht Hs0).
    destruct (strip_one table s) as [r|] eqn:E; simpl; [|reflexivity].
    apply IH; [|lia|exact Hs].
    pose proof (strip_one_shorter table s r Hne E). lia.
Qed.

Lemma strip_all_chain_off (table : list string) (a s : string) :
  forallb (fun w => negb (String.eqb w "")) table = true ->
  (forall w r, In w table -> strip_one table (w ++ r) = Some r) ->
  chain table a ->
  forall fuel,
    String.length (a ++ s) <= fuel ->
    strip_all table fuel (a ++ s) = strip_all table (String.length s) s.
Proof.
  intros Hne Hm. induction 1 as [|w a Hw Ha IH]; intros fuel Hl.
  - apply strip_all_fuel; [exact Hne | exact Hl | simpl; lia].
  - rewrite append_assoc in Hl |- *.
    pose proof (strip_one_shorter table _ _ Hne (Hm w (a ++ s) Hw)) as Hlt.
    destruct fuel as [|fuel]; [lia|].
    cbn [strip_all]. rewrite (Hm w (a ++ s) Hw). apply IH. lia.
Qed.

Lemma chain_rev_map (table : list string) (a : string) :
  chain table a -> chain (map string_rev table) (string_rev a).
Proof.
  induction 1 as [|w a Hw Ha IH]; [constructor|].
  rewrite string_rev_append. apply chain_app; [exact IH|].
  rewrite <- (append_nil_r (string_rev w)).
  constructor; [now apply in_map | constructor].
Qed.

(** Nor is one the end of another. *)
Lemma strip_one_rev_member (w r : string) :
  In w (map string_rev js_white_space) ->
  strip_one (map string_rev js_white_space) (w ++ r) = Some r.
Proof.
  intros Hw. cbv in Hw.
  repeat (destruct Hw as [<- | Hw]; [reflexivity|]). destruct Hw.
Qed.

Lemma trimEnd_white (s b : string) : white b -> trimEnd (s ++ b) = trimEnd s.
Proof.
  intros Hb. unfold trimEnd. f_equal.
  rewrite string_rev_append, <- (string_rev_length s).
  apply strip_all_chain_off;
    [ exact white_space_rev_nonempty
    | exact strip_one_rev_member
    | now apply chain_rev_map
    | rewrite <- string_rev_append, string_rev_length; lia ].
Qed.

Lemma white_space_tails :
  forallb (fun w => match w with
                    | "" => false
                    | String _ w' =>
                        string_forallb (fun d => negb (Ascii.eqb d " ")) w'
                    end) js_white_space = true.
Proof. reflexivity. Qed.

Lemma trimStart_before_space (s b : string) :
  trimStart s <> "" ->
  trimStart (s ++ String " " b) = trimStart s ++ String " " b.
Proof.
  intros Hs. unfold trimStart.
  apply (strip_all_before " " js_white_space b white_space_tails);
    [lia | rewrite string_length_append; lia | exact Hs].
Qed.

Lemma trimEnd_suffix (y : string) :
  trimEnd (y ++ notion_suffix) = y ++ notion_suffix.
Proof.
  apply trimEnd_fixed. unfold last_is_space, ends_with.
  rewrite string_rev_append. reflexivity.
Qed.

Lemma strip_suffix_append (suf y : string) : strip_suffix suf (y ++ suf) = y.
Proof.
  unfold strip_suffix, ends_with.
  rewrite string_rev_append, starts_with_append.
  rewrite string_length_append, Nat.add_sub. apply slice0_append_exact.
Qed.

Lemma trim_suffix (x b : string) :
  trimStart x <> "" -> white b ->
  trim (x ++ notion_suffix ++ b) = trimStart x ++ notion_suffix.
Proof.
  intros Hx Hb. unfold trim.
  replace (trimStart (x ++ notion_suffix ++ b))
    with (trimStart x ++ notion_suffix ++ b)
    by (symmetry; exact (trimStart_before_space x _ Hx)).
  rewrite <- append_assoc, (trimEnd_white _ b Hb). apply trimEnd_suffix.
Qed.

Lemma or_else_nonempty (a b : string) : String.eqb a "" = false -> or_else a b = a.
Proof. destruct a; [discriminate | reflexivity]. Qed.

(** The title a page is recorded under.  A missing, empty or blank title
    element gives [page].  White space around the title is removed, and so
    is the suffix [ – Notion] at its end: a title that is not blank,
    followed by the suffix and by white space, gives the title trimmed; a
    title that has no such suffix when trimmed is trimmed and no more.
    [trim] removes white space and nothing else.  Whatever the title
    element, the title is not empty and has no white space at either
    end. *)
Theorem pageTitle_clean :
  pageTitle None = "page"
  /\ (forall x, white x -> pageTitle (Some x) = "page")
  /\ (forall x b,
        String.eqb (trim x) "" = false -> white b ->
        pageTitle (Some (x ++ notion_suffix ++ b)) = trim x)
  /\ (forall x,
        String.eqb (trim x) "" = false ->
        ends_with notion_suffix (trim x) = false ->
        pageTitle (Some x) = trim x)
  /\ (forall x, exists a b, x = a ++ trim x ++ b /\ white a /\ white b)
  /\ (forall t,
        String.eqb (pageTitle t) "" = false /\ trimmed (pageTitle t) = true).
Proof.
  split; [reflexivity|]. split; [|split; [|split; [|split]]].
  - intros x Hx. unfold pageTitle. now rewrite (trim_white x Hx).
  - intros x b Hx Hb.
    assert (Hs : trimStart x <> "").
    { intros E. unfold trim in Hx. rewrite E in Hx. discriminate Hx. }
    unfold pageTitle. rewrite (trim_suffix x b Hs Hb).
    rewrite (or_else_nonempty (trimStart x ++ notion_suffix) "page")
      by (destruct (trimStart x); [congruence | reflexivity]).
    rewrite strip_suffix_append.
    replace (trim (trimStart x)) with (trim x)
      by (unfold trim; now rewrite (trimStart_fixed _ (trimStart_first x))).
    now apply or_else_nonempty.
  - intros x Hx Hn. unfold pageTitle.
    rewrite (or_else_nonempty _ _ Hx). unfold strip_suffix. rewrite Hn.
    rewrite (trim_fixed _ (trim_trimmed x)). now apply or_else_nonempty.
  - exact trim_split.
  - intros t. unfold pageTitle.
    set (x := strip_suffix notion_suffix
                (or_else (trim match t with Some x => x | None => "" end) "page")).
    pose proof (trim_trimmed x) as Ht.
    destruct (trim x) as [|c r]; [split; reflexivity|].
    simpl. split; [reflexivity | exact Ht].
Qed.

(** A title with a no-break space before it and the suffix after it; a
    title that is only an ideographic space; a title without the suffix. *)
Lemma pageTitle_clean_witness :
  pageTitle (Some (bytes2 "194" "160" ++ "Road map" ++ notion_suffix
                   ++ String "010" ""))
  = "Road map"
  /\ pageTitle (Some (bytes3 "227" "128" "128")) = "page"
  /\ pageTitle (Some " Notes ") = "Notes".
Proof.
  destruct pageTitle_clean as (_ & Hblank & Hsuffix & Hplain & _).
  split; [|split].
  - apply (Hsuffix (bytes2 "194" "160" ++ "Road map") (String "010" ""));
      [reflexivity|].
    apply (chain_more js_white_space (String "010" "") "");
      [simpl; tauto | constructor].
  - apply Hblank.
    apply (chain_more js_white_space (bytes3 "227" "128" "128") "");
      [simpl; tauto | constructor].
  - apply (Hplain " Notes "); reflexivity.
Defined.

Lemma length_slice0_le (n : nat) (s : string) : String.length (slice0 n s) <= n.
Proof.
  revert s; induction n as [|n IH]; intros [|c s]; simpl; try lia.
  specialize (IH s). lia.
Qed.

(** The provisional file name of a link is a non-empty stem of at most 60
    characters followed by [.html], whatever the link text and whatever
    [slugify] returns; an empty slug gives [page.html]. *)
Theorem guessFilename_shape `{Platform} (text : string) :
  exists stem,
    guessFilename text = stem ++ ".html"
    /\ 1 <= String.length stem /\ String.length stem <= 60
    /\ (slugify (or_else (trim (or_else text "page")) "page") = "" ->
        stem = "page").
Proof.
  unfold guessFilename. cbv zeta.
  remember (slugify (or_else (trim (or_else text "page")) "page")) as g eqn:Eg.
  clear Eg.
  pose proof (length_slice0_le 60 g) as Hl.
  destruct (slice0 60 g) as [|c r] eqn:Es.
  - exists "page". simpl. repeat split; lia.
  - exists (String c r). simpl in *. repeat split; try lia.
    intros ->. discriminate Es.
Qed.

(** ** Asset file names *)

Lemma forallb_slice0 (p : ascii -> bool) (n : nat) (s : string) :
  string_forallb p s = true -> string_forallb p (slice0 n s) = true.
Proof.
  revert s; induction n as [|n IH]; intros [|c s]; simpl; try reflexivity.
  intros E. apply andb_true_iff in E as [-> E]. now apply IH.
Qed.

Lemma forallb_drop (p : ascii -> bool) (n : nat) (s : string) :
  string_forallb p s = true -> string_forallb p (drop n s) = true.
Proof.
  revert s; induction n as [|n IH]; intros [|c s]; simpl; try reflexivity;
    try (intros E; exact E).
  intros E. apply andb_true_iff in E as [_ E]. now apply IH.
Qed.

Lemma forallb_before (p : ascii -> bool) (c : ascii) (s : string) :
  string_forallb p s = true -> string_forallb p (before c s) = true.
Proof.
  induction s as [|a s IH]; simpl; [reflexivity|].
  intros E. apply andb_true_iff in E as [Ea E].
  destruct (Ascii.eqb a c); [reflexivity|]. simpl. now rewrite Ea, IH.
Qed.

Lemma forallb_filter (p : ascii -> bool) (s : string) :
  string_forallb p (string_filter p s) = true.
Proof.
  induction s as [|c s IH]; simpl; [reflexivity|].
  destruct (p c) eqn:Hc; [simpl; now rewrite Hc | exact IH].
Qed.

Lemma filter_all (p : ascii -> bool) (s : string) :
  string_forallb p s = true -> string_filter p s = s.
Proof.
  induction s as [|c s IH]; simpl; [reflexivity|].
  intros E. apply andb_true_iff in E as [-> E]. now rewrite IH.
Qed.

Lemma filter_append (p : ascii -> bool) (a b : string) :
  string_filter p (a ++ b) = string_filter p a ++ string_filter p b.
Proof.
  induction a as [|c a IH]; simpl; [reflexivity|].
  destruct (p c); simpl; now rewrite IH.
Qed.

Lemma suffix_match_plain (k : nat) (names : list string) (s : string) :
  no_backslash s = true -> suffix_match k names s = None.
Proof.
  intros Hs. unfold suffix_match. cbv zeta.
  pose proof (forallb_drop _ (String.length s - k) s Hs) as Hd.
  destruct (drop (String.length s - k) s) as [|b [|c rest]]; try reflexivity.
  simpl in Hd. destruct (Ascii.eqb b backslash); [discriminate|].
  now rewrite andb_false_r.
Qed.

(** As the pattern is written it needs a backslash, so for a URL without
    one the extension is always [.bin]: the name is at most 24 letters and
    digits of the base64 text of the URL, then [.bin], whatever the
    extension of the URL. *)
Theorem assetFilename_bin (u : string) :
  no_backslash u = true ->
  exists id,
    assetFilename u = id ++ ".bin"
    /\ id = slice0 24 (string_filter is_alnum (base64 u))
    /\ string_forallb is_alnum id = true
    /\ String.length id <= 24.
Proof.
  intros Hu. exists (slice0 24 (string_filter is_alnum (base64 u))).
  split; [|split; [reflexivity | split]].
  - unfold assetFilename, image_ext_match. cbv zeta.
    assert (Hb : no_backslash (before "#" (before "?" u)) = true).
    { unfold no_backslash. now apply forallb_before, forallb_before. }
    now rewrite !suffix_match_plain by exact Hb.
  - apply forallb_slice0, forallb_filter.
  - apply length_slice0_le.
Qed.

Lemma assetFilename_bin_witness :
  exists id,
    assetFilename "https://example.com/images/a.png" = id ++ ".bin"
    /\ id = slice0 24 (string_filter is_alnum
                         (base64 "https://example.com/images/a.png"))
    /\ string_forallb is_alnum id = true
    /\ String.length id <= 24.
Proof. apply assetFilename_bin. reflexivity. Defined.

Lemma base64_append (r : string) :
  forall k p, String.length p = 3 * k ->
    base64 (p ++ r) = base64 p ++ base64 r
    /\ String.length (base64 p) = 4 * k.
Proof.
  induction k as [|k IH]; intros p Hp.
  - destruct p; [split; reflexivity | discriminate].
  - destruct p as [|a [|b [|c p]]]; simpl in Hp; try lia.
    destruct (IH p) as [E L]; [lia|].
    change (base64 (String a (String b (String c p)) ++ r))
      with (base64 (String a (String b (String c (p ++ r))))).
    cbn [base64]. cbv zeta. rewrite E.
    unfold sextet. simpl String.append. simpl String.length.
    split; [reflexivity | rewrite L; lia].
Qed.

(** Two URLs without a backslash that share their first 18 characters get
    the same asset file name when the base64 text of those 18 characters
    has no plus sign and no slash: the 24 characters kept are those of the
    common part. *)
Theorem assetFilename_collides (p r1 r2 : string) :
  String.length p = 18 ->
  string_forallb is_alnum (base64 p) = true ->
  no_backslash (p ++ r1) = true ->
  no_backslash (p ++ r2) = true ->
  assetFilename (p ++ r1) = assetFilename (p ++ r2)
  /\ assetFilename (p ++ r1) = base64 p ++ ".bin".
Proof.
  intros Hp Ha H1 H2.
  assert (G : forall r, no_backslash (p ++ r) = true ->
                assetFilename (p ++ r) = base64 p ++ ".bin").
  { intros r Hr. destruct (assetFilename_bin (p ++ r) Hr) as (id & E & Eid & _).
    rewrite E, Eid. f_equal.
    destruct (base64_append r 6 p Hp) as [Eb Lb].
    rewrite Eb, filter_append, (filter_all _ _ Ha).
    replace 24 with (String.length (base64 p)) by exact Lb.
    apply slice0_append_exact. }
  rewrite (G r1 H1), (G r2 H2). split; reflexivity.
Qed.

Lemma assetFilename_collides_witness :
  assetFilename "https://example.com/images/a.png"
  = assetFilename "https://example.com/other/b.jpg"
  /\ assetFilename "https://example.com/images/a.png"
     = base64 "https://example.co" ++ ".bin".
Proof.
  apply (assetFilename_collides "https://example.co" "m/images/a.png"
           "m/other/b.jpg"); reflexivity.
Defined.

(** ** Escaping for the fix pass *)

Lemma starts_with_tail_backslash (s : string) :
  no_backslash s = true -> starts_with regexp_tail s = false.
Proof.
  destruct s as [|c s]; [reflexivity|].
  unfold no_backslash, regexp_tail. cbn [string_forallb starts_with].
  intros E. apply andb_true_iff in E as [E _].
  apply negb_true_iff in E. rewrite Ascii.eqb_sym in E. now rewrite E.
Qed.

(** As the pattern is written it asks for two backslashes and a bracket
    after a special character, so a string without a backslash comes back
    unchanged: the dots, question marks and other operators of a URL are
    not escaped. *)
Theorem escapeRegExp_plain (s : string) :
  no_backslash s = true -> escapeRegExp s = s.
Proof.
  unfold escapeRegExp. induction s as [|c s IH]; [reflexivity|].
  intros Hs. cbn [escapeRegExp_from].
  assert (Hs' : no_backslash s = true).
  { unfold no_backslash in *. cbn [string_forallb] in Hs.
    now apply andb_true_iff in Hs as [_ Hs]. }
  rewrite (starts_with_tail_backslash s Hs'), andb_false_r. now rewrite IH.
Qed.

Lemma escapeRegExp_plain_witness :
  escapeRegExp "https://h.notion.site/p?x=1+2" = "https://h.notion.site/p?x=1+2".
Proof. apply escapeRegExp_plain. reflexivity. Defined.

(** ** The normalizer, continued *)

(** A normalized URL is a fixed point of [normalizeUrl], provided the
    platform parses the serialized URL back to the record it came from. *)
Theorem normalizeUrl_idempotent `{Platform} (u : string) :
  (forall x, URL_new u = Some x ->
     URL_new (URL_toString (URL_clear_hash x)) = Some (URL_clear_hash x)) ->
  normalizeUrl (normalizeUrl u) = normalizeUrl u.
Proof.
  intros Hrt. unfold normalizeUrl at 2 3.
  destruct (URL_new u) as [x|] eqn:E.
  - unfold normalizeUrl. now rewrite (Hrt x eq_refl).
  - unfold normalizeUrl. now rewrite E.
Qed.

Lemma normalizeUrl_idempotent_witness :
  @normalizeUrl reference_platform
    (@normalizeUrl reference_platform "https://h.site/p?q=1#a")
  = @normalizeUrl reference_platform "https://h.site/p?q=1#a".
Proof.
  apply (@normalizeUrl_idempotent reference_platform).
  intros x E. vm_compute in E. injection E as <-. reflexivity.
Defined.

(** ** The link rewriter, continued *)

Lemma getAttribute_set_kept (a : attributes) (k v k0 v0 : string) :
  getAttribute a k0 = Some v0 ->
  exists v1, getAttribute (setAttribute a k v) k0 = Some v1.
Proof.
  intros E. destruct (String.eqb_spec k0 k) as [-> | Hne].
  - exists v. apply getAttribute_set_same.
  - exists v0. now rewrite getAttribute_set_other.
Qed.

(** Whatever the anchor, the rewriter removes no attribute and changes
    none but [href], [target] and [rel]. *)
Theorem rewriteAnchor_attributes `{Platform} (host : string) (urlObj : URL)
    (visited : Visited) (queue : list string) (attrs : attributes)
    (text : string) :
  let attrs' := fst (rewriteAnchor host urlObj visited queue attrs text) in
  (forall k, String.eqb k "href" || String.eqb k "target" || String.eqb k "rel"
             = false ->
     getAttribute attrs' k = getAttribute attrs k)
  /\ (forall k v, getAttribute attrs k = Some v ->
        exists v', getAttribute attrs' k = Some v').
Proof.
  cbv zeta. unfold rewriteAnchor, anchorTry.
  assert (Hsame : (forall k : string,
                     String.eqb k "href" || String.eqb k "target"
                     || String.eqb k "rel" = false ->
                     getAttribute attrs k = getAttribute attrs k)
                  /\ (forall k v, getAttribute attrs k = Some v ->
                        exists v', getAttribute attrs k = Some v')).
  { split; [reflexivity | eauto]. }
  destruct (getAttribute attrs "href") as [[|c href]|]; [exact Hsame | | exact Hsame].
  destruct (URL_new_base (String c href) urlObj) as [x|]; [|exact Hsame].
  destruct (inScope host (URL_toString x)) as [[|]|]; [| |exact Hsame]; simpl.
  - split.
    + intros k Hk. apply orb_false_iff in Hk as [Hk _].
      apply orb_false_iff in Hk as [Hk _]. apply String.eqb_neq in Hk.
      now rewrite getAttribute_set_other.
    + intros k v E. now apply getAttribute_set_kept with (v0 := v).
  - split.
    + intros k Hk. apply orb_false_iff in Hk as [Hk Hr].
      apply orb_false_iff in Hk as [_ Ht].
      apply String.eqb_neq in Hr, Ht. now rewrite !getAttribute_set_other.
    + intros k v E.
      destruct (getAttribute_set_kept attrs "target" "_blank" k v E) as (v1 & E1).
      now apply getAttribute_set_kept with (v0 := v1).
Qed.

Lemma rewriteAnchor_attributes_witness :
  let attrs' := fst (@rewriteAnchor reference_platform Sites.host Sites.home_base
                       [] [] [("class", "btn"); ("href", "https://example.com/")]
                       "Example") in
  getAttribute attrs' "class" = Some "btn"
  /\ exists v', getAttribute attrs' "href" = Some v'.
Proof.
  destruct (@rewriteAnchor_attributes reference_platform Sites.host
              Sites.home_base [] []
              [("class", "btn"); ("href", "https://example.com/")] "Example")
    as [Hk Hv].
  split.
  - apply (Hk "class"). reflexivity.
  - apply (Hv "href" "https://example.com/"). reflexivity.
Defined.

Lemma rewriteAnchor_markup `{Platform} (host : string) (urlObj : URL)
    (visited : Visited) (queue : list string) (attrs : attributes)
    (text : string) :
  fst (rewriteAnchor host urlObj visited queue attrs text)
  = fst (rewriteAnchor host urlObj visited [] attrs text).
Proof.
  unfold rewriteAnchor, anchorTry.
  destruct (getAttribute attrs "href") as [[|c href]|]; try reflexivity.
  destruct (URL_new_base (String c href) urlObj) as [x|]; [|reflexivity].
  now destruct (inScope host (URL_toString x)) as [[|]|].
Qed.

(** The markup the rewriter produces does not depend on the queue: every
    node is rewritten on its own, in place, so the nodes keep their number
    and order, markup and images come out as they went in, and an anchor
    keeps its text. *)
Theorem rewriteLinks_markup `{Platform} (host : string) (urlObj : URL)
    (visited : Visited) (nodes : list node) (queue : list string) :
  fst (rewriteLinks host urlObj visited nodes queue)
  = map (rewrittenNode host urlObj visited) nodes.
Proof.
  revert queue. induction nodes as [|n nodes IH]; intros queue; [reflexivity|].
  destruct n as [html | attrs text | attrs]; simpl.
  - specialize (IH queue).
    destruct (rewriteLinks host urlObj visited nodes queue). simpl in *. now rewrite IH.
  - pose proof (rewriteAnchor_markup host urlObj visited queue attrs text) as Ea.
    destruct (rewriteAnchor host urlObj visited queue attrs text) as [attrs' q1].
    specialize (IH q1).
    destruct (rewriteLinks host urlObj visited nodes q1). simpl in *.
    now rewrite IH, Ea.
  - specialize (IH queue).
    destruct (rewriteLinks host urlObj visited nodes queue). simpl in *. now rewrite IH.
Qed.

(** An anchor with an in-scope target gets a local file name as its
    [href]: the file name recorded for the target when the target is in the
    map, the guess from the link text otherwise; its other attributes stay,
    and the target is enqueued exactly when it is neither in the map nor in
    the queue. *)
Theorem in_scope_anchor_mapped `{Platform} (host : string) (urlObj : URL)
    (visited : Visited) (queue : list string) (attrs : attributes)
    (text nh : string) :
  anchorTarget host urlObj attrs = Some nh ->
  let r := rewriteAnchor host urlObj visited queue attrs text in
  getAttribute (fst r) "href" = Some (mappedFilename visited nh text)
  /\ (forall k, String.eqb k "href" = false ->
        getAttribute (fst r) k = getAttribute attrs k)
  /\ snd r = (if Map_has visited nh || includes queue nh
              then queue else queue ++ [nh])%list
  /\ (forall m c f, Map_get visited nh = Some m -> filename m = String c f ->
        mappedFilename visited nh text = filename m)
  /\ (Map_get visited nh = None ->
        mappedFilename visited nh text = guessFilename text).
Proof.
  unfold anchorTarget, rewriteAnchor, anchorTry. cbv zeta.
  destruct (getAttribute attrs "href") as [[|c href]|]; try discriminate.
  destruct (URL_new_base (String c href) urlObj) as [x|]; [|discriminate].
  destruct (inScope host (URL_toString x)) as [[|]|]; try discriminate.
  intros E. injection E as <-. simpl.
  split; [apply getAttribute_set_same | split; [|split; [|split]]].
  - intros k Hk. apply String.eqb_neq in Hk. now rewrite getAttribute_set_other.
  - destruct (Map_has visited (normalizeUrl (URL_toString x)));
      [reflexivity|].
    now destruct (includes queue (normalizeUrl (URL_toString x))).
  - intros m c0 f Em Ef. unfold mappedFilename. now rewrite Em, Ef.
  - intros Em. unfold mappedFilename. now rewrite Em.
Qed.

Lemma in_scope_anchor_mapped_witness :
  let r := @rewriteAnchor reference_platform Sites.host Sites.home_base
             [(Sites.second_url, mkMeta "Second Page" "second-page.html")]
             [] [("href", Sites.second_url); ("class", "link")] "Read more" in
  getAttribute (fst r) "href" = Some "second-page.html"
  /\ getAttribute (fst r) "class" = Some "link"
  /\ snd r = [].
Proof.
  destruct (@in_scope_anchor_mapped reference_platform Sites.host Sites.home_base
              [(Sites.second_url, mkMeta "Second Page" "second-page.html")]
              [] [("href", Sites.second_url); ("class", "link")] "Read more"
              Sites.second_url eq_refl) as (Eh & Ek & Eq & _).
  split; [exact Eh | split; [|exact Eq]].
  apply (Ek "class"). reflexivity.
Defined.

Lemma rewriteAnchor_snd `{Platform} (host : string) (urlObj : URL)
    (visited : Visited) (queue : list string) (attrs : attributes)
    (text : string) :
  snd (rewriteAnchor host urlObj visited queue attrs text)
  = match anchorTarget host urlObj attrs with
    | Some nh =>
        if Map_has visited nh || includes queue nh then queue
        else (queue ++ [nh])%list
    | None => queue
    end.
Proof.
  unfold anchorTarget, rewriteAnchor, anchorTry.
  destruct (getAttribute attrs "href") as [[|c href]|]; try reflexivity.
  destruct (URL_new_base (String c href) urlObj) as [x|]; [|reflexivity].
  destruct (inScope host (URL_toString x)) as [[|]|]; try reflexivity.
  simpl. destruct (Map_has visited (normalizeUrl (URL_toString x))); [reflexivity|].
  now destruct (includes queue (normalizeUrl (URL_toString x))).
Qed.

Lemma rewriteLinks_extra `{Platform} (host : string) (urlObj : URL)
    (visited : Visited) (nodes : list node) (queue : list string) :
  exists extra,
    snd (rewriteLinks host urlObj visited nodes queue) = (queue ++ extra)%list
    /\ NoDup extra
    /\ (forall v, In v extra ->
          In v (linkTargets host urlObj nodes)
          /\ Map_has visited v = false /\ includes queue v = false)
    /\ (forall v, In v (linkTargets host urlObj nodes) ->
          Map_has visited v = false ->
          In v (queue ++ extra)%list).
Proof.
  revert queue. induction nodes as [|n nodes IH]; intros queue.
  - exists []. simpl. rewrite app_nil_r.
    split; [reflexivity | split; [constructor | split]]; intros v [].
  - destruct n as [html | attrs text | attrs].
    + destruct (IH queue) as (extra & E & R). exists extra. simpl.
      destruct (rewriteLinks host urlObj visited nodes queue). now split.
    + simpl.
      pose proof (rewriteAnchor_snd host urlObj visited queue attrs text) as Ha.
      destruct (rewriteAnchor host urlObj visited queue attrs text) as [attrs' q1].
      simpl in Ha. destruct (IH q1) as (extra & E & Hnd & Hin & Hall).
      destruct (rewriteLinks host urlObj visited nodes q1) as [rest' q2].
      simpl in E. simpl.
      destruct (anchorTarget host urlObj attrs) as [nh|] eqn:Ht.
      2:{ subst q1. exists extra. now split. }
      destruct (Map_has visited nh || includes queue nh) eqn:Hk.
      * subst q1. exists extra. split; [exact E | split; [exact Hnd | split]].
        -- intros v Hv. destruct (Hin v Hv) as (H1 & H2 & H3).
           split; [now right | now split].
        -- intros v [<- | Hv] Hm; [|now apply Hall].
           rewrite Hm in Hk. simpl in Hk. apply includes_true in Hk.
           apply in_or_app. now left.
      * apply orb_false_iff in Hk as [Hv Hq]. subst q1.
        exists (nh :: extra). rewrite <- app_assoc in E. simpl in E.
        split; [exact E | split; [|split]].
        -- constructor; [|exact Hnd].
           intros Hc. destruct (Hin nh Hc) as (_ & _ & H3).
           apply includes_false in H3. apply H3. apply in_or_app. right. now left.
        -- intros v [<- | Hc].
           ++ split; [now left | now split].
           ++ destruct (Hin v Hc) as (H1 & H2 & H3).
              split; [now right | split; [exact H2|]].
              apply includes_false. apply includes_false in H3.
              intros Hx. apply H3. apply in_or_app. now left.
        -- intros v Hv' Hm.
           assert (G : In v ((queue ++ [nh]) ++ extra)%list).
           { destruct Hv' as [<- | Hv'].
             - apply in_or_app. left. apply in_or_app. right. now left.
             - now apply Hall. }
           now rewrite <- app_assoc in G.
    + destruct (IH queue) as (extra & E & R). exists extra. simpl.
      destruct (rewriteLinks host urlObj visited nodes queue). now split.
Qed.

(** The rewriter only appends to the queue: what was queued stays in front,
    in order; what is added are in-scope targets of the page that were
    neither in the map nor queued, each once; and every in-scope target of
    the page that is not in the map is in the queue afterwards. *)
Theorem rewriteLinks_appends `{Platform} (host : string) (urlObj : URL)
    (visited : Visited) (nodes : list node) (queue : list string) :
  exists extra,
    snd (rewriteLinks host urlObj visited nodes queue) = (queue ++ extra)%list
    /\ NoDup extra
    /\ (forall v, In v extra ->
          In v (linkTargets host urlObj nodes)
          /\ Map_has visited v = false /\ includes queue v = false)
    /\ (forall v, In v (linkTargets host urlObj nodes) ->
          Map_has visited v = false ->
          In v (queue ++ extra)%list).
Proof. apply rewriteLinks_extra. Qed.

(** ** Images *)

Lemma distinct_from_spec (l seen : list string) :
  NoDup (distinct_from seen l)
  /\ forall x, In x (distinct_from seen l) <-> In x l /\ ~ In x seen.
Proof.
  revert seen. induction l as [|y l IH]; intros seen; simpl.
  - split; [constructor | intros x; tauto].
  - destruct (includes seen y) eqn:Hy.
    + destruct (IH seen) as [Hnd Hin]. split; [exact Hnd|].
      intros x. rewrite Hin. apply includes_true in Hy.
      split; [tauto|]. intros [[<- | Hx] Hs]; [contradiction | tauto].
    + destruct (IH (y :: seen)) as [Hnd Hin]. apply includes_false in Hy.
      split.
      * constructor; [|exact Hnd]. rewrite Hin. simpl. tauto.
      * intros x. simpl. rewrite Hin. simpl.
        destruct (String.eqb_spec y x) as [-> | Hne]; [tauto|]. tauto.
Qed.

Lemma sources_spec (nodes : list node) (src : string) :
  In src (sources nodes) <-> exists n, In n nodes /\ image_src n = Some src.
Proof.
  induction nodes as [|n nodes IH]; simpl.
  - split; [intros [] | intros (n & [] & _)].
  - destruct (image_src n) as [s|] eqn:En; simpl; rewrite IH; split.
    + intros [<- | (m & Hm & Em)]; [exists n; tauto | exists m; tauto].
    + intros (m & [<- | Hm] & Em); [left; congruence | right; eauto].
    + intros (m & Hm & Em). exists m. tauto.
    + intros (m & [<- | Hm] & Em); [congruence | eauto].
Qed.

Lemma image_src_spec (n : node) (src : string) :
  image_src n = Some src <->
  exists attrs, n = Image attrs /\ getAttribute attrs "src" = Some src
                /\ String.eqb src "" = false.
Proof.
  destruct n as [html | a t | a]; simpl.
  - split; [discriminate | intros (attrs & E & _); discriminate].
  - split; [discriminate | intros (attrs & E & _); discriminate].
  - destruct (getAttribute a "src") as [[|c s]|] eqn:Ea; split;
      try discriminate.
    + intros (attrs & E & Es & Hn). injection E as <-.
      rewrite Ea in Es. injection Es as <-. discriminate.
    + intros E. injection E as <-. exists a. now repeat split.
    + intros (attrs & E & Es & _). injection E as <-. now rewrite Ea in Es.
    + intros (attrs & E & Es & _). injection E as <-. now rewrite Ea in Es.
Qed.

(** The image sources of a page are the non-empty [src] values of its
    [img] elements, each once. *)
Theorem imageSources_spec (nodes : list node) :
  NoDup (imageSources nodes)
  /\ forall src,
       In src (imageSources nodes) <->
       exists attrs, In (Image attrs) nodes
                     /\ getAttribute attrs "src" = Some src
                     /\ String.eqb src "" = false.
Proof.
  unfold imageSources.
  destruct (distinct_from_spec (sources nodes) []) as [Hnd Hin].
  split; [exact Hnd|]. intros src. rewrite Hin, sources_spec. split.
  - intros [(n & Hn & En) _]. apply image_src_spec in En as (attrs & -> & R).
    exists attrs. tauto.
  - intros (attrs & Hn & R). split; [|intros []].
    exists (Image attrs). split; [exact Hn|]. apply image_src_spec. eauto.
Qed.








(** ** Runs, continued *)

Lemma pages_saved_app (a b : list effect) :
  pages_saved (a ++ b) = pages_saved a + pages_saved b.
Proof. unfold pages_saved. now rewrite filter_app, length_app. Qed.

Lemma attempted_app (a b : list effect) :
  pages_attempted (a ++ b) = pages_attempted a + pages_attempted b.
Proof. unfold pages_attempted. now rewrite filter_app, length_app. Qed.

Lemma silent_no_attempt (es : list effect) : silent es -> pages_attempted es = 0.
Proof.
  unfold silent, pages_attempted. induction es as [|e es IH]; simpl; [reflexivity|].
  intros Hs. apply andb_true_iff in Hs as [He Hs].
  destruct e; simpl in *; try discriminate; now apply IH.
Qed.

Section ImageLog.
Context `{Platform}.

Lemma downloadImages_unsaved (urlObj : URL) (get : string -> option string)
    (assets : files) (images : list string) (nodes : list node) :
  pages_saved (snd (downloadImages urlObj get assets images nodes)) = 0.
Proof.
  pose proof (downloadImages_log urlObj get assets images nodes) as Hl.
  unfold pages_saved.
  induction (snd (downloadImages urlObj get assets images nodes)) as [|e es IH];
    [reflexivity|].
  simpl in *. apply andb_true_iff in Hl as [He Hl].
  destruct e; simpl in *; try discriminate He; now apply IH.
Qed.

End ImageLog.

Section PersistFacts.
Context `{Platform}.
Variable w : world.
Variable host : string.

(** An iteration leaves the map and the pages alone, or adds one entry for
    the head of the queue and writes the file of that entry. *)
Lemma step_persist (s : state) (url : string) (rest : list string) :
  loop_condition s = true -> queue s = url :: rest ->
  exists es,
    trace (step w host s) = (trace s ++ es)%list
    /\ pages_attempted es <= 1
    /\ ((visited (step w host s) = visited s
         /\ site (step w host s) = site s
         /\ pages_saved es = 0)
        \/ (exists meta html,
              Map_has (visited s) url = false
              /\ visited (step w host s) = Map_set (visited s) url meta
              /\ site (step w host s) = file_write (site s) (filename meta) html
              /\ pages_saved es = 1 /\ pages_attempted es = 1
              /\ exists t,
                   meta = mkMeta t (uniqueSlug t (visited s) ++ ".html"))).
Proof.
  intros Hc Hq. unfold step. rewrite Hc, Hq.
  destruct (Map_has (visited s) url) eqn:Hv; simpl.
  { exists []. rewrite app_nil_r. split; [reflexivity | split; [auto | left]].
    now repeat split. }
  assert (Hskip : forall e, is_any_visit e = false -> is_saved e = false ->
            exists es,
              ((trace s ++ [Visiting url]) ++ [e])%list = (trace s ++ es)%list
              /\ pages_attempted es <= 1
              /\ ((visited s = visited s /\ site s = site s /\ pages_saved es = 0)
                  \/ (exists meta html,
                        false = false
                        /\ visited s = Map_set (visited s) url meta
                        /\ site s = file_write (site s) (filename meta) html
                        /\ pages_saved es = 1 /\ pages_attempted es = 1
                        /\ exists t,
                             meta = mkMeta t (uniqueSlug t (visited s) ++ ".html")))).
  { intros e He Hs. exists [Visiting url; e]. rewrite <- app_assoc.
    split; [reflexivity|]. unfold pages_attempted, pages_saved. simpl.
    rewrite He, Hs. simpl. split; [lia | left; now repeat split]. }
  destruct (goto w (tick s) url) as [| |status root]; simpl;
    try (now apply Hskip).
  destruct (status_ok status); [|now apply Hskip].
  unfold processPage. simpl.
  destruct (URL_new url) as [urlObj|]; [|now apply Hskip].
  destruct (rewriteLinks host urlObj (visited s) (doc_nodes root) rest)
    as [nodes1 queue1].
  pose proof (downloadImages_silent urlObj (axios_get w (tick s)) (assets s)
                (imageSources (doc_nodes root))
                (doc_nodes (injectMinimalBundle (set_nodes root nodes1)))) as Hs.
  pose proof (downloadImages_unsaved urlObj (axios_get w (tick s)) (assets s)
                (imageSources (doc_nodes root))
                (doc_nodes (injectMinimalBundle (set_nodes root nodes1)))) as Hu.
  destruct (downloadImages urlObj (axios_get w (tick s)) (assets s)
              (imageSources (doc_nodes root))
              (doc_nodes (injectMinimalBundle (set_nodes root nodes1))))
    as [[assets1 nodes2] log].
  simpl in Hs, Hu. apply silent_no_attempt in Hs.
  destruct (page_writable w (tick s)); simpl.
  - exists (Visiting url :: log ++ [PageSaved (uniqueSlug (pageTitle (doc_title root))
                                                 (visited s) ++ ".html")])%list.
    split; [now rewrite <- app_assoc|].
    assert (Ea : pages_attempted
                   (Visiting url :: log ++ [PageSaved (uniqueSlug (pageTitle (doc_title root))
                                                 (visited s) ++ ".html")]) = 1).
    { change (Visiting url :: ?l) with ([Visiting url] ++ l)%list.
      rewrite !attempted_app, Hs. reflexivity. }
    split; [lia | right].
    eexists _, _. split; [reflexivity | split; [reflexivity | split; [reflexivity|]]].
    split; [|split; [exact Ea | eauto]].
    change (Visiting url :: ?l) with ([Visiting url] ++ l)%list.
    rewrite !pages_saved_app, Hu. reflexivity.
  - exists (Visiting url :: log ++ [PageError])%list.
    split; [now rewrite <- app_assoc|].
    change (Visiting url :: ?l) with ([Visiting url] ++ l)%list.
    rewrite !attempted_app, !pages_saved_app, Hs, Hu. simpl.
    split; [unfold pages_attempted; simpl; lia | left].
    now repeat split.
Qed.

End PersistFacts.

Lemma Map_get_set_other (m : Visited) (k k0 : string) (v : PageMeta) :
  k0 <> k -> Map_get (Map_set m k v) k0 = Map_get m k0.
Proof.
  intros Hk. induction m as [|[k' v'] m IH]; simpl.
  - apply String.eqb_neq in Hk. now rewrite String.eqb_sym, Hk.
  - destruct (String.eqb k' k) eqn:E; simpl.
    + apply String.eqb_eq in E as ->.
      apply String.eqb_neq in Hk. now rewrite String.eqb_sym, Hk.
    + now rewrite IH.
Qed.

Lemma in_Map_set (m : Visited) (k : string) (v : PageMeta) (e : string * PageMeta) :
  In e (Map_set m k v) -> In e m \/ e = (k, v).
Proof.
  induction m as [|[k' v'] m IH]; simpl.
  - intros [<- | []]. now right.
  - destruct (String.eqb k' k); simpl.
    + intros [<- | He]; [now right | left; now right].
    + intros [<- | He]; [left; now left|].
      destruct (IH He) as [Hm | ->]; [left; now right | now right].
Qed.

Lemma in_Map_set_new (m : Visited) (k : string) (v : PageMeta) (e : string * PageMeta) :
  Map_has m k = false -> In e m \/ e = (k, v) -> In e (Map_set m k v).
Proof.
  unfold Map_has. induction m as [|[k' v'] m IH]; simpl.
  - intros _ [[] | ->]. now left.
  - destruct (String.eqb k' k) eqn:E; [discriminate|]. intros Hm.
    intros [[<- | He] | ->]; simpl; [now left | right | right]; apply IH; auto.
Qed.

Lemma file_exists_write (fs : files) (n c f : string) :
  file_exists (file_write fs n c) f = String.eqb f n || file_exists fs f.
Proof.
  unfold file_exists. destruct (String.eqb_spec f n) as [-> | Hne]; simpl.
  - now rewrite file_read_write_same.
  - now rewrite file_read_write_other.
Qed.

Lemma file_write_names (fs : files) (n c : string) :
  file_exists fs n = true -> map fst (file_write fs n c) = map fst fs.
Proof.
  unfold file_exists. induction fs as [|[n' c'] fs IH]; simpl; [discriminate|].
  destruct (String.eqb n' n) eqn:E; simpl; [reflexivity|].
  intros Hx. now rewrite IH.
Qed.

Section RunFacts2.
Context `{Platform}.
Variable w : world.
Variable host : string.

Lemma step_files_ok (s : state) : files_ok s -> files_ok (step w host s).
Proof.
  intros (I1 & I2 & I3 & I4 & I5). destruct (loop_condition s) eqn:Hc.
  2:{ rewrite step_idle by exact Hc. now repeat split. }
  destruct (loop_condition_queue s Hc) as (url & rest & Hq & _).
  destruct (step_outcome w host s url rest Hc Hq) as [_ Ht].
  destruct (step_persist w host s url rest Hc Hq)
    as (es & Et & Ha & [(Ev & Es & Hs) | (meta & html & Hv & Ev & Es & Hs & Ha1 & _)]);
    unfold files_ok; rewrite Et, Ev, Es, Ht, pages_saved_app, attempted_app.
  - split; [exact I1 | split; [exact I2 | split; [lia | split; lia]]].
  - split; [|split; [|split; [|split; lia]]].
    + intros v m Hin. rewrite file_exists_write.
      apply in_Map_set in Hin as [Hin | E].
      * rewrite (I1 v m Hin). apply orb_true_r.
      * injection E as -> ->. now rewrite String.eqb_refl.
    + intros f Hf. rewrite file_exists_write in Hf.
      apply orb_true_iff in Hf as [Hf | Hf].
      * apply String.eqb_eq in Hf as ->. exists url, meta.
        split; [|reflexivity]. apply in_Map_set_new; auto.
      * destruct (I2 f Hf) as (v & m & Hin & E). exists v, m.
        split; [|exact E]. apply in_Map_set_new; auto.
    + rewrite Map_size_set_new by exact Hv. lia.
Qed.

Lemma run_files_ok (n : nat) (s : state) : files_ok s -> files_ok (run w host n s).
Proof.
  revert s; induction n as [|n IH]; intros s Hs; [exact Hs|].
  simpl. apply IH. now apply step_files_ok.
Qed.

Lemma seeded_files_ok (u : string) : files_ok (seeded u).
Proof.
  unfold files_ok. simpl.
  split; [intros v m [] | split; [intros f Hf; discriminate Hf|]].
  split; [reflexivity | split; [apply Nat.le_refl | apply Nat.le_0_l]].
Qed.

Lemma fixLinks_total (vis : Visited) :
  forall pages fs,
    (forall v m, In (v, m) pages -> file_exists fs (filename m) = true) ->
    exists fs', fixLinks vis pages fs = Some fs' /\ map fst fs' = map fst fs.
Proof.
  induction pages as [|[v m] pages IH]; intros fs Hall; simpl.
  - now exists fs.
  - pose proof (Hall v m (or_introl eq_refl)) as Hx.
    unfold file_exists in Hx.
    destruct (file_read fs (filename m)) as [html|] eqn:Er; [|discriminate].
    assert (Hx' : file_exists fs (filename m) = true)
      by (unfold file_exists; now rewrite Er).
    destruct (IH (file_write fs (filename m) (fixPage vis html)))
      as (fs' & E & En).
    + intros v' m' Hin. rewrite file_exists_write.
      rewrite (Hall v' m' (or_intror Hin)). apply orb_true_r.
    + exists fs'. split; [exact E|]. rewrite En. now apply file_write_names.
Qed.

End RunFacts2.

(** Once a page is persisted its entry in the map never changes and its URL
    is never attempted again. *)
Theorem persisted_is_final `{Platform} (w : world) (host : string) (s : state)
    (u : string) (m : PageMeta) (n : nat) :
  Map_get (visited s) u = Some m ->
  Map_get (visited (run w host n s)) u = Some m
  /\ count_visits u (trace (run w host n s)) = count_visits u (trace s).
Proof.
  revert s. induction n as [|n IH]; intros s Hm; [now split|].
  simpl. destruct (loop_condition s) eqn:Hc.
  2:{ rewrite step_idle by exact Hc. now apply IH. }
  destruct (loop_condition_queue s Hc) as (url & rest & Hq & _).
  assert (Hhas : Map_has (visited s) u = true) by (unfold Map_has; now rewrite Hm).
  assert (Hm' : Map_get (visited (step w host s)) u = Some m).
  { destruct (step_outcome w host s url rest Hc Hq) as [Ho _].
    destruct Ho as [_ E _ _ | e _ _ E _ _ _ | urlObj root log Hv _ _ _ _ Hw];
      try (now rewrite E).
    destruct Hw as [[_ (meta & E)] | [_ E]]; rewrite E; [|exact Hm].
    rewrite Map_get_set_other; [exact Hm|]. intros ->. congruence. }
  destruct (IH _ Hm') as [E1 E2]. split; [exact E1|].
  rewrite E2, step_visits by exact Hc. rewrite Hq.
  destruct (String.eqb_spec url u) as [-> | Hne]; simpl; [|lia].
  rewrite Hhas. simpl. lia.
Qed.

Lemma persisted_is_final_witness :
  let s := @run reference_platform Sites.self_link Sites.host 1
             (seeded Sites.home_url) in
  Map_get (visited (@run reference_platform Sites.self_link Sites.host 5 s))
    Sites.home_url = Some (mkMeta "Home" "home.html")
  /\ count_visits Sites.home_url
       (trace (@run reference_platform Sites.self_link Sites.host 5 s))
     = count_visits Sites.home_url (trace s).
Proof.
  apply (@persisted_is_final reference_platform). vm_compute. reflexivity.
Defined.

(** At every point of a crawl the pages under the output directory are
    those named by the entries of the map: every entry has its file, every
    file belongs to an entry; the map has as many entries as pages were
    logged as saved, which is at most the number of pages attempted, which
    is at most the number of iterations. *)
Theorem site_matches_visited `{Platform} (w : world) (host u : string) (n : nat) :
  let s := run w host n (seeded u) in
  (forall v m, In (v, m) (visited s) -> file_exists (site s) (filename m) = true)
  /\ (forall f, file_exists (site s) f = true ->
        exists v m, In (v, m) (visited s) /\ filename m = f)
  /\ Map_size (visited s) = pages_saved (trace s)
  /\ pages_saved (trace s) <= pages_attempted (trace s)
  /\ pages_attempted (trace s) <= n.
Proof.
  cbv zeta. pose proof (run_files_ok w host n (seeded u) (seeded_files_ok u)) as Hok.
  destruct Hok as (I1 & I2 & I3 & I4 & I5).
  split; [exact I1 | split; [exact I2 | split; [exact I3 | split; [exact I4|]]]].
  assert (Ht : forall k s, tick (run w host k s) <= tick s + k).
  { induction k as [|k IH]; intros s; simpl; [lia|].
    specialize (IH (step w host s)).
    destruct (loop_condition s) eqn:Hc.
    - destruct (loop_condition_queue s Hc) as (url & rest & Hq & _).
      destruct (step_outcome w host s url rest Hc Hq) as [_ E]. lia.
    - rewrite step_idle in IH |- * by exact Hc. lia. }
  specialize (Ht n (seeded u)). simpl in Ht. lia.
Qed.

(** When the loop ends, the fix pass finds every file it reads: the script
    runs to its end, and the pass leaves the set of file names as it
    was. *)
Theorem fix_pass_total `{Platform} (w : world) (START_URL host : string)
    (s0 s : state) (fuel : nat) :
  start START_URL = Some (host, s0) ->
  crawl w host fuel s0 = Some s ->
  exists fs,
    main w START_URL fuel = Some (s, fs)
    /\ map fst fs = map fst (site s).
Proof.
  intros Hstart Hcrawl. unfold main. rewrite Hstart, Hcrawl.
  destruct (crawl_first_halt w host fuel s0 s Hcrawl) as (n & _ & -> & _).
  assert (Hok : files_ok (run w host n s0)).
  { apply run_files_ok. unfold start in Hstart.
    destruct START_URL; [discriminate|].
    destruct (URL_new (String a START_URL)); [|discriminate].
    injection Hstart as _ <-. apply seeded_files_ok. }
  destruct Hok as (I1 & _).
  destruct (fixLinks_total (visited (run w host n s0)) (visited (run w host n s0))
              (site (run w host n s0)) I1) as (fs & E & En).
  exists fs. now rewrite E.
Qed.

Lemma fix_pass_total_witness :
  exists fs,
    @main reference_platform Sites.two_pages Sites.home_url 10
    = Some (@run reference_platform Sites.two_pages Sites.host 2
              (seeded Sites.home_url), fs)
    /\ map fst fs
       = map fst (site (@run reference_platform Sites.two_pages Sites.host 2
                          (seeded Sites.home_url))).
Proof.
  apply (@fix_pass_total reference_platform Sites.two_pages Sites.home_url
           Sites.host (seeded Sites.home_url)); vm_compute; reflexivity.
Defined.

(** A seed that does not answer with a success status (no response, a
    non-success status, or a navigation error) ends the run after one
    iteration: nothing is persisted, nothing is written, the log holds the
    visit and one warning, and the script still runs to its end. *)
Theorem unreachable_seed `{Platform} (w : world) (START_URL : string)
    (x : URL) (fuel : nat) :
  String.eqb START_URL "" = false ->
  URL_new START_URL = Some x ->
  answers w 0 (normalizeUrl START_URL) = false ->
  exists s e,
    main w START_URL (S fuel) = Some (s, [])
    /\ visited s = [] /\ queue s = [] /\ site s = [] /\ assets s = []
    /\ trace s = [Visiting (normalizeUrl START_URL); e]
    /\ (e = SkippedStatus \/ e = PageError).
Proof.
  intros Hne Hx Hans. unfold main, start. destruct START_URL as [|c r];
    [discriminate|]. rewrite Hx.
  set (u := normalizeUrl (String c r)) in *.
  unfold answers in Hans.
  assert (G : forall e,
            step w (URL_host x) (seeded u)
            = mkState [] [] [] [] [Visiting u; e] 1 ->
            exists s e0,
              match crawl w (URL_host x) (S fuel) (seeded u) with
              | Some s1 =>
                  match fixLinks (visited s1) (visited s1) (site s1) with
                  | Some fs => Some (s1, fs)
                  | None => None
                  end
              | None => None
              end = Some (s, [])
              /\ visited s = [] /\ queue s = [] /\ site s = [] /\ assets s = []
              /\ trace s = [Visiting u; e0]
              /\ (e = e0)).
  { intros e E. exists (mkState [] [] [] [] [Visiting u; e] 1), e.
    cbn [crawl]. change (loop_condition (seeded u)) with true. cbv iota.
    rewrite E. destruct fuel; simpl; now repeat split. }
  unfold step. change (loop_condition (seeded u)) with true. cbv iota.
  simpl queue. cbv iota. simpl Map_has. cbv iota.
  destruct (goto w 0 u) as [| |status root] eqn:Hg.
  - destruct (G PageError) as (s & e0 & E & R).
    { unfold step. change (loop_condition (seeded u)) with true. cbv iota.
      simpl. now rewrite Hg. }
    exists s, e0. destruct R as (R1 & R2 & R3 & R4 & R5 & <-).
    repeat split; auto.
  - destruct (G SkippedStatus) as (s & e0 & E & R).
    { unfold step. change (loop_condition (seeded u)) with true. cbv iota.
      simpl. now rewrite Hg. }
    exists s, e0. destruct R as (R1 & R2 & R3 & R4 & R5 & <-).
    repeat split; auto.
  - destruct (G SkippedStatus) as (s & e0 & E & R).
    { unfold step. change (loop_condition (seeded u)) with true. cbv iota.
      simpl. simpl in Hans. now rewrite Hg, Hans. }
    exists s, e0. destruct R as (R1 & R2 & R3 & R4 & R5 & <-).
    repeat split; auto.
Qed.

Lemma unreachable_seed_witness :
  exists s e,
    @main reference_platform (Sites.static []) Sites.home_url 3 = Some (s, [])
    /\ visited s = [] /\ queue s = [] /\ site s = [] /\ assets s = []
    /\ trace s = [Visiting (@normalizeUrl reference_platform Sites.home_url); e]
    /\ (e = SkippedStatus \/ e = PageError).
Proof.
  apply (@unreachable_seed reference_platform (Sites.static []) Sites.home_url
           Sites.home_base 2); reflexivity.
Defined.

Lemma linkTargets_scoped `{Platform} (host : string) (urlObj : URL)
    (nodes : list node) (v : string) :
  In v (linkTargets host urlObj nodes) -> scoped host v.
Proof.
  induction nodes as [|n nodes IH]; simpl; [intros []|].
  destruct n as [html | attrs text | attrs]; try exact IH.
  destruct (anchorTarget host urlObj attrs) as [nh|] eqn:Et; [|exact IH].
  intros [<- | Hv]; [|now apply IH].
  unfold anchorTarget in Et.
  destruct (getAttribute attrs "href") as [[|c href]|]; try discriminate.
  destruct (URL_new_base (String c href) urlObj) as [x|]; [|discriminate].
  destruct (inScope host (URL_toString x)) as [[|]|] eqn:Es; try discriminate.
  injection Et as <-. now exists (URL_toString x).
Qed.

Lemma silent_no_visit (es : list effect) (v : string) :
  silent es -> ~ In (Visiting v) es.
Proof.
  unfold silent. induction es as [|e es IH]; simpl; [tauto|].
  intros Hs. apply andb_true_iff in Hs as [He Hs].
  intros [-> | Hin]; [discriminate | now apply IH].
Qed.

(** A crawl only goes to the seed and to normalized in-scope URLs: every
    URL in the queue and every URL attempted is the seed or comes from a
    link whose resolved URL has the crawl's host and a page identifier in
    its path. *)
Theorem attempts_in_scope `{Platform} (w : world) (host u : string) (n : nat) :
  let s := run w host n (seeded u) in
  (forall v, In v (queue s) -> v = u \/ scoped host v)
  /\ (forall v, In (Visiting v) (trace s) -> v = u \/ scoped host v).
Proof.
  cbv zeta. induction n as [|n [IHq IHt]].
  - simpl. split; [intros v [<- | []]; now left | intros v []].
  - rewrite run_step_end.
    destruct (loop_condition (run w host n (seeded u))) eqn:Hc.
    2:{ rewrite step_idle by exact Hc. now split. }
    destruct (loop_condition_queue _ Hc) as (url & rest & Hq & _).
    split.
    + intros v Hin. destruct (step_queue w host _ v Hc Hin) as [Ht | [Hd _]].
      * apply IHq. rewrite Hq in *. now right.
      * right. unfold discovered in Hd.
        destruct (rendered w (run w host n (seeded u))) as [[urlObj root]|];
          [|destruct Hd].
        now apply linkTargets_scoped in Hd.
    + intros v Hin.
      assert (Hurl : url = u \/ scoped host url)
        by (apply IHq; rewrite Hq; now left).
      destruct (step_outcome w host _ url rest Hc Hq) as [Ho _].
      destruct Ho as [_ _ _ E | e _ _ _ _ E He | urlObj root log _ _ _ Hs E _];
        rewrite E in Hin.
      * now apply IHt.
      * apply in_app_or in Hin as [Hin | [Hin | [Hin | []]]];
          [now apply IHt | injection Hin as <-; exact Hurl |].
        subst e. discriminate He.
      * apply in_app_or in Hin as [Hin | [Hin | Hin]];
          [now apply IHt | injection Hin as <-; exact Hurl |].
        exfalso. now apply (silent_no_visit log v Hs).
Qed.

(** The queue is first in, first out: an iteration takes the head off and
    leaves the rest in order; what it adds goes to the end and was
    discovered on the page just rendered. *)
Theorem queue_fifo `{Platform} (w : world) (host : string) (s : state) :
  loop_condition s = true ->
  exists extra,
    queue (step w host s) = (tl (queue s) ++ extra)%list
    /\ forall v, In v extra -> In v (discovered w host s).
Proof.
  intros Hc. destruct (loop_condition_queue s Hc) as (url & rest & Hq & _).
  destruct (step_outcome w host s url rest Hc Hq) as [Ho _].
  rewrite Hq. simpl.
  destruct Ho as [_ _ E _ | e _ _ _ E _ _ | urlObj root log _ Hr E _ _ _].
  - exists []. rewrite app_nil_r. split; [exact E | intros v []].
  - exists []. rewrite app_nil_r. split; [exact E | intros v []].
  - destruct (rewriteLinks_extra host urlObj (visited s) (doc_nodes root) rest)
      as (extra & Ex & _ & Hin & _).
    exists extra. split; [now rewrite E|].
    intros v Hv. rewrite (discovered_rendered w host s urlObj root Hr).
    now apply Hin.
Qed.

Lemma queue_fifo_witness :
  exists extra,
    queue (@step reference_platform Sites.two_pages Sites.host
             (seeded Sites.home_url))
    = (tl (queue (seeded Sites.home_url)) ++ extra)%list
    /\ forall v, In v extra ->
         In v (@discovered reference_platform Sites.two_pages Sites.host
                 (seeded Sites.home_url)).
Proof.
  apply (@queue_fifo reference_platform). reflexivity.
Defined.

(** ** File names in a run *)

Lemma plain_no_backslash (s : string) : plain s = true -> no_backslash s = true.
Proof.
  unfold plain, no_backslash. induction s as [|c s IH]; simpl; [reflexivity|].
  intros E. apply andb_true_iff in E as [Ec E]. rewrite (IH E), andb_true_r.
  unfold plain_char in Ec. now apply andb_true_iff in Ec as [_ Ec].
Qed.

Lemma plain_no_dot (s : string) :
  plain s = true -> string_forallb (fun c => negb (Ascii.eqb c ".")) s = true.
Proof.
  unfold plain. induction s as [|c s IH]; simpl; [reflexivity|].
  intros E. apply andb_true_iff in E as [Ec E]. rewrite (IH E), andb_true_r.
  unfold plain_char in Ec. now apply andb_true_iff in Ec as [Ec _].
Qed.

Lemma base_slug_plain `{Platform} (title : string) :
  (forall t, plain (slugify t) = true) -> plain (base_slug title) = true.
Proof.
  intros Hp. unfold base_slug, plain. apply forallb_slice0.
  specialize (Hp title). destruct (slugify title); [reflexivity | exact Hp].
Qed.

(** When [slugify] never returns a dot or a backslash (its strict mode
    returns letters, digits and hyphens), no file name of a run is ever
    numbered: every entry of the map has the file name made of the slug of
    its title and [.html], so two pages with equal titles get the same
    file. *)
Theorem filenames_never_numbered `{Platform} (w : world) (host u : string)
    (n : nat) :
  (forall t, plain (slugify t) = true) ->
  forall v m, In (v, m) (visited (run w host n (seeded u))) ->
    filename m = base_slug (title m) ++ ".html".
Proof.
  intros Hp.
  assert (G : forall k s,
            (forall v m, In (v, m) (visited s) ->
               filename m = base_slug (title m) ++ ".html") ->
            forall v m, In (v, m) (visited (run w host k s)) ->
              filename m = base_slug (title m) ++ ".html").
  { induction k as [|k IH]; intros s Hs; [exact Hs|].
    simpl. apply IH. destruct (loop_condition s) eqn:Hc.
    2:{ now rewrite step_idle. }
    destruct (loop_condition_queue s Hc) as (url & rest & Hq & _).
    destruct (step_persist w host s url rest Hc Hq)
      as (es & _ & _ & [(Ev & _) | (meta & html & Hv & Ev & _ & _ & _ & t & Em)]);
      rewrite Ev; [exact Hs|].
    intros v m Hin. apply in_Map_set in Hin as [Hin | E]; [now apply (Hs v m)|].
    injection E as _ ->. subst meta. simpl. f_equal.
    apply uniqueSlug_never_numbers.
    - intros m' Hm'. unfold Map_values in Hm'.
      apply in_map_iff in Hm' as ([v' m''] & <- & Hin'). simpl.
      rewrite (Hs v' m'' Hin'). split; [|eauto].
      change (string_forallb (fun c => negb (Ascii.eqb c backslash))
                (base_slug (title m'') ++ ".html"))
        with (no_backslash (base_slug (title m'') ++ ".html")).
      unfold no_backslash. rewrite forallb_append.
      fold (no_backslash (base_slug (title m''))).
      rewrite (plain_no_backslash _ (base_slug_plain (title m'') Hp)).
      reflexivity.
    - apply plain_no_dot. apply (base_slug_plain t Hp). }
  apply G. intros v m [].
Qed.

Lemma to_lower_plain (c : ascii) :
  is_alnum c || Ascii.eqb c "-" = true -> plain_char (to_lower c) = true.
Proof.
  destruct c as [[] [] [] [] [] [] [] []]; intros E;
    try reflexivity; discriminate E.
Qed.

Lemma forallb_rev_onto (p : ascii -> bool) (s acc : string) :
  string_forallb p (string_rev_onto s acc)
  = string_forallb p s && string_forallb p acc.
Proof.
  revert acc. induction s as [|c s IH]; intros acc; simpl; [reflexivity|].
  rewrite IH. simpl. destruct (p c), (string_forallb p s); reflexivity.
Qed.

Lemma forallb_trim (p : ascii -> bool) (s : string) :
  string_forallb p s = true -> string_forallb p (trim s) = true.
Proof.
  destruct (trim_split s) as (a & b & E & _). intros Hs.
  rewrite E, !forallb_append in Hs.
  apply andb_true_iff in Hs as [_ Hs]. now apply andb_true_iff in Hs as [Hs _].
Qed.

Lemma reference_slugify_plain (t : string) :
  plain (Reference.slugify t) = true.
Proof.
  unfold Reference.slugify, plain.
  set (x := trim (string_filter (fun c => is_alnum c || is_space c)
                    (Reference.mapped_chars t))).
  assert (Hx : string_forallb (fun c => is_alnum c || is_space c) x = true).
  { apply forallb_trim, forallb_filter. }
  clearbody x.
  assert (Hh : forall b, string_forallb (fun c => is_alnum c || Ascii.eqb c "-")
                           (Reference.hyphenate b x) = true).
  { induction x as [|c x IH]; intros b; simpl; [reflexivity|].
    simpl in Hx. apply andb_true_iff in Hx as [Hc Hx].
    destruct (is_space c) eqn:Hs.
    - destruct b; simpl; apply IH; exact Hx.
    - simpl. rewrite orb_false_r in Hc. rewrite Hc, IH by exact Hx. reflexivity. }
  specialize (Hh false).
  induction (Reference.hyphenate false x) as [|c y IH]; simpl; [reflexivity|].
  simpl in Hh. apply andb_true_iff in Hh as [Hc Hy].
  now rewrite (to_lower_plain c Hc), IH.
Qed.

Lemma filenames_never_numbered_witness :
  filename (mkMeta "Notes" "notes.html")
  = @base_slug reference_platform (title (mkMeta "Notes" "notes.html")) ++ ".html".
Proof.
  apply (@filenames_never_numbered reference_platform Sites.same_titles
           Sites.host Sites.home_url 2 reference_slugify_plain Sites.second_url).
  vm_compute. right. left. reflexivity.
Defined.
